(** * salt.modules.win_snmp: SNMP agent settings on top of the registry

    A shallow embedding of [salt/modules/win_snmp.py].  Python values that
    travel between the module and the registry are dynamically typed; they
    are embedded as [pyval].  Python dictionaries are insertion-ordered
    association lists, Python [sorted] is a merge sort, and every call into
    [__utils__["reg.*"]] is an operation of an abstract configuration store
    that is recorded in a trace of events.  Calls to the logger have no
    effect on results or on the store and are left out. *)

From Stdlib Require Import ZArith String Ascii.
From Stdlib Require OrderedTypeEx.
From stdpp Require Import base decidable option list sorting gmap strings pretty.

Set Warnings "-clear-no-such-hyp".

Open Scope string_scope.
Open Scope list_scope.
Open Scope Z_scope.

(** ** Python values *)

(** The values the module exchanges with the registry and with its callers:
    [None], integers (unbounded, as in Python) and strings. *)
Inductive pyval :=
  | PNone
  | PInt (z : Z)
  | PStr (s : string).

Global Instance pyval_eq_dec : EqDecision pyval.
Proof. solve_decision. Defined.

Global Instance pyval_countable : Countable pyval.
Proof.
  refine (inj_countable'
    (λ v, match v with
          | PNone => inl ()
          | PInt z => inr (inl z)
          | PStr s => inr (inr s)
          end)
    (λ x, match x with
          | inl _ => PNone
          | inr (inl z) => PInt z
          | inr (inr s) => PStr s
          end) _).
  by intros [].
Defined.

(** Python's [==] on these values: values of different types differ. *)
Definition py_eq (a b : pyval) : bool := bool_decide (a = b).

(** Python truthiness: [None], [0] and the empty string are falsy. *)
Definition py_truthy (v : pyval) : bool :=
  match v with
  | PNone => false
  | PInt z => negb (z =? 0)
  | PStr s => negb (String.eqb s "")
  end.

(** [str(v)], as used by [str.format]. *)
Definition py_str (v : pyval) : string :=
  match v with
  | PNone => "None"
  | PInt z => pretty z
  | PStr s => s
  end.

(** [repr] of a string that needs no escaping, and of a list of such
    strings.  Only applied to the names of the two constant tables. *)
Definition py_repr_str (s : string) : string := "'" +:+ s +:+ "'".

Fixpoint py_join (sep : string) (l : list string) : string :=
  match l with
  | [] => ""
  | [s] => s
  | s :: l => s +:+ sep +:+ py_join sep l
  end.

Definition py_repr_list (l : list string) : string :=
  "[" +:+ py_join ", " (py_repr_str <$> l) +:+ "]".

(** ** Exceptions and results *)

Inductive exn :=
  | SaltInvocationError (message : string)
  | CommandExecutionError (message : string)
  | TypeError
  | IndexError
  | KeyError (key : pyval).

Inductive result (A : Type) :=
  | Ok (a : A)
  | Raise (e : exn).
Global Arguments Ok {A} a.
Global Arguments Raise {A} e.

(** ** Ordering of strings and [sorted] *)

(** Python compares strings by code point, left to right; [String.compare]
    does the same on bytes. *)
Definition str_le : relation string := λ a b, String.leb a b = true.

Global Instance str_le_dec : RelDecision str_le.
Proof. intros a b. unfold str_le. apply _. Defined.

(** [sorted(l)] on a list of strings. *)
Definition sorted (l : list string) : list string := merge_sort str_le l.

(** [sorted(set(l))]: the distinct elements in ascending order. *)
Definition sorted_set (l : list string) : list string :=
  sorted (remove_dups l).

(** [set(a) == set(b)] on lists of strings. *)
Definition same_set (a b : list string) : bool :=
  bool_decide (a ⊆ b ∧ b ⊆ a).

(** ** Dictionaries *)

(** An insertion-ordered dictionary with unique keys. *)
Section dict.
Context {K V : Type} `{EqDecision K}.

Fixpoint dict_get (d : list (K * V)) (k : K) : option V :=
  match d with
  | [] => None
  | (k', v) :: d' => if decide (k' = k) then Some v else dict_get d' k
  end.

Definition dict_mem (k : K) (d : list (K * V)) : bool :=
  bool_decide (k ∈ d.*1).

(** [d[k] = v]: overwrite in place, or append a new key. *)
Fixpoint dict_set (d : list (K * V)) (k : K) (v : V) : list (K * V) :=
  match d with
  | [] => [(k, v)]
  | (k', v') :: d' =>
      if decide (k' = k) then (k, v) :: d' else (k', v') :: dict_set d' k v
  end.

Definition dict_keys (d : list (K * V)) : list K := d.*1.
End dict.

(** ** The two enumerations *)

Definition _HKEY := "HKLM".
Definition _SNMP_KEY := "SYSTEM\CurrentControlSet\Services\SNMP\Parameters".
Definition _AGENT_KEY := _SNMP_KEY +:+ "\RFC1156Agent".
Definition _COMMUNITIES_KEY := _SNMP_KEY +:+ "\ValidCommunities".
Definition _SNMP_GPO_KEY := "SOFTWARE\Policies\SNMP\Parameters".
Definition _COMMUNITIES_GPO_KEY := _SNMP_GPO_KEY +:+ "\ValidCommunities".

Definition _PERMISSION_TYPES : list (string * Z) :=
  [ ("None", 1); ("Notify", 2); ("Read Only", 4); ("Read Write", 8);
    ("Read Create", 16) ].

Definition _SERVICE_TYPES : list (string * Z) :=
  [ ("None", 0); ("Physical", 1); ("Datalink and subnetwork", 2);
    ("Internet", 4); ("End-to-end", 8); ("Applications", 64) ].

Definition get_agent_service_types : list string := dict_keys _SERVICE_TYPES.
Definition get_permission_types : list string := dict_keys _PERMISSION_TYPES.

(** ** The configuration store *)

(** One element of what [reg.list_values] returns: a dictionary carrying
    ["vname"] and ["vdata"], or an error value that is not a dictionary. *)
Inductive reg_item :=
  | ItemDict (vname vdata : pyval)
  | ItemOther.

(** What [reg.list_values] returns: a list, or something that is not. *)
Inductive reg_listing :=
  | Listing (items : list reg_item)
  | NotAList.

(** The registry utilities the module calls through [__utils__].  They are
    not part of the module; the module's functions are written against this
    interface.  [read_value] stands for the ["vdata"] field of the dictionary
    that [reg.read_value] returns, the only field the module looks at. *)
Class ConfigStore (St : Type) := {
  key_exists : St → string → string → bool;
  read_value : St → string → string → pyval → pyval;
  list_values : St → string → string → reg_listing;
  set_value : St → string → string → pyval → pyval → string → St;
  delete_value : St → string → string → pyval → St;
}.

(** Every call into the store leaves an event in the trace. *)
Inductive event :=
  | KeyExists (hive key : string)
  | ReadValue (hive key : string) (vname : pyval)
  | ListValues (hive key : string)
  | SetValue (hive key : string) (vname vdata : pyval) (vtype : string)
  | DeleteValue (hive key : string) (vname : pyval).

Global Instance event_eq_dec : EqDecision event.
Proof. solve_decision. Defined.

(** The events that change the store. *)
Definition is_mutation (e : event) : bool :=
  match e with
  | SetValue _ _ _ _ _ | DeleteValue _ _ _ => true
  | _ => false
  end.

Definition mutations (t : list event) : list event :=
  filter (λ e, is_mutation e = true) t.

(** ** Programs over the store *)

(** A program runs from a store state and yields a value or an exception,
    the final store state and the trace of the calls it made. *)
Definition prog (St A : Type) : Type := St → result A * St * list event.

Section monad.
Context {St : Type}.

Definition ret {A} (a : A) : prog St A := λ st, (Ok a, st, []).

Definition raise {A} (e : exn) : prog St A := λ st, (Raise e, st, []).

Definition lift {A} (r : result A) : prog St A := λ st, (r, st, []).

Definition bind {A B} (m : prog St A) (k : A → prog St B) : prog St B :=
  λ st,
    match m st with
    | (Ok a, st1, t1) =>
        match k a st1 with
        | (r, st2, t2) => (r, st2, t1 ++ t2)
        end
    | (Raise e, st1, t1) => (Raise e, st1, t1)
    end.
End monad.

Notation "'let*' x ':=' m 'in' k" := (bind m (λ x, k))
  (at level 10, x binder, m at level 200, k at level 200).

(** [for x in l: body]. *)
Fixpoint for_each {St A} (l : list A) (body : A → prog St unit)
    : prog St unit :=
  match l with
  | [] => ret tt
  | x :: l => let* _ := body x in for_each l body
  end.

(** [if c: body]. *)
Definition when {St} (c : bool) (body : prog St unit) : prog St unit :=
  if c then body else ret tt.

Section store_calls.
Context `{ConfigStore St}.

Definition reg_key_exists (hive key : string) : prog St bool :=
  λ st, (Ok (key_exists st hive key), st, [KeyExists hive key]).

Definition reg_read_value (hive key : string) (vname : pyval)
    : prog St pyval :=
  λ st, (Ok (read_value st hive key vname), st, [ReadValue hive key vname]).

Definition reg_list_values (hive key : string) : prog St reg_listing :=
  λ st, (Ok (list_values st hive key), st, [ListValues hive key]).

Definition reg_set_value (hive key : string) (vname vdata : pyval)
    (vtype : string) : prog St unit :=
  λ st, (Ok tt, set_value st hive key vname vdata vtype,
         [SetValue hive key vname vdata vtype]).

Definition reg_delete_value (hive key : string) (vname : pyval)
    : prog St unit :=
  λ st, (Ok tt, delete_value st hive key vname,
         [DeleteValue hive key vname]).
End store_calls.

(** ** Agent settings *)

(** The dictionary [get_agent_settings] returns, with its three keys. *)
Module Settings.
Record t := {
  contact : pyval;
  location : pyval;
  services : list string;
}.
End Settings.
Abbreviation agent_settings := Settings.t.

Global Instance agent_settings_eq_dec : EqDecision agent_settings.
Proof. solve_decision. Defined.

(** The sort key [(-x[1], x[0])] of [sorted_types], compared as Python
    compares tuples. *)
Definition service_key_le : relation (string * Z) :=
  λ a b, - a.2 < - b.2 ∨ (- a.2 = - b.2 ∧ str_le a.1 b.1).

Global Instance service_key_le_dec : RelDecision service_key_le.
Proof. intros a b. unfold service_key_le. apply _. Defined.

(** The loop over [sorted_types] of [get_agent_settings]; [services] is
    [ret["services"]].  Comparing a string with [0] raises [TypeError]. *)
Fixpoint services_loop (sorted_types : list (string * Z))
    (current_bitmask : pyval) (services : list string)
    : result (list string) :=
  match sorted_types with
  | [] => Ok services
  | (service, bitmask) :: sorted_types =>
      match current_bitmask with
      | PNone => Ok services
      | PStr _ => Raise TypeError
      | PInt current =>
          if 0 <? current then
            let remaining_bitmask := current - bitmask in
            if 0 <=? remaining_bitmask then
              services_loop sorted_types (PInt remaining_bitmask)
                (services ++ [service])
            else services_loop sorted_types current_bitmask services
          else Ok services
      end
  end.

(** The decoding of the stored [sysServices] value: what
    [get_agent_settings] does with [current_bitmask] once the three values
    are read. *)
Definition decode_services (current_bitmask : pyval) : result (list string) :=
  let sorted_types := merge_sort service_key_le _SERVICE_TYPES in
  let services :=
    if py_eq current_bitmask (PInt 0) then
      match last sorted_types with
      | Some (service, _) => Ok [service]
      | None => Raise IndexError
      end
    else services_loop sorted_types current_bitmask [] in
  match services with
  | Ok services => Ok (sorted services)
  | Raise e => Raise e
  end.

(** [sum(_SERVICE_TYPES[service] for service in services)]. *)
Fixpoint service_sum (services : list string) : result Z :=
  match services with
  | [] => Ok 0
  | service :: services =>
      match dict_get _SERVICE_TYPES service with
      | None => Raise (KeyError (PStr service))
      | Some bitmask =>
          match service_sum services with
          | Ok total => Ok (bitmask + total)
          | Raise e => Raise e
          end
      end
  end.

Definition invalid_service_message (service : string) : string :=
  "Invalid service '" +:+ service +:+ "' specified. Valid services: "
    +:+ py_repr_list get_agent_service_types.

Section agent.
Context `{ConfigStore St}.

Definition get_agent_settings : prog St agent_settings :=
  let* contact := reg_read_value _HKEY _AGENT_KEY (PStr "sysContact") in
  let* location := reg_read_value _HKEY _AGENT_KEY (PStr "sysLocation") in
  let* current_bitmask :=
    reg_read_value _HKEY _AGENT_KEY (PStr "sysServices") in
  let* services := lift (decode_services current_bitmask) in
  ret {| Settings.contact := contact; Settings.location := location;
         Settings.services := services |}.

(** [settings == current_settings] for the dictionary built from the three
    arguments. *)
Definition settings_eq (contact location : pyval)
    (services : option (list string)) (current : agent_settings) : bool :=
  py_eq contact current.(Settings.contact)
  && py_eq location current.(Settings.location)
  && bool_decide (services = Some current.(Settings.services)).

(** The settings that are requested and that the re-read does not show. *)
Definition failed_settings (contact location : pyval)
    (services : option (list string)) (new_settings : agent_settings)
    : list string :=
  (if negb (py_eq contact PNone)
      && negb (py_eq contact new_settings.(Settings.contact))
   then ["contact"] else [])
  ++ (if negb (py_eq location PNone)
         && negb (py_eq location new_settings.(Settings.location))
      then ["location"] else [])
  ++ (match services with
      | Some services =>
          if bool_decide (services ≠ new_settings.(Settings.services))
          then ["services"] else []
      | None => []
      end).

Definition set_agent_settings (contact location : pyval)
    (services : option (list string)) : prog St bool :=
  let* services :=
    match services with
    | Some services =>
        let services := sorted_set services in
        let* _ := for_each services (λ service,
          if dict_mem service _SERVICE_TYPES then ret tt
          else raise (SaltInvocationError (invalid_service_message service)))
        in ret (Some services)
    | None => ret None
    end in
  let* current_settings := get_agent_settings in
  if settings_eq contact location services current_settings then ret true
  else
    let* _ :=
      when (negb (py_eq contact PNone))
        (when (negb (py_eq contact current_settings.(Settings.contact)))
           (reg_set_value _HKEY _AGENT_KEY (PStr "sysContact") contact
              "REG_SZ")) in
    let* _ :=
      when (negb (py_eq location PNone))
        (when (negb (py_eq location current_settings.(Settings.location)))
           (reg_set_value _HKEY _AGENT_KEY (PStr "sysLocation") location
              "REG_SZ")) in
    let* _ :=
      match services with
      | Some services =>
          when (negb (same_set services
                        current_settings.(Settings.services)))
            (let* vdata := lift (service_sum services) in
             reg_set_value _HKEY _AGENT_KEY (PStr "sysServices")
               (PInt vdata) "REG_DWORD")
      | None => ret tt
      end in
    let* new_settings := get_agent_settings in
    if bool_decide
         (failed_settings contact location services new_settings ≠ [])
    then ret false
    else ret true.
End agent.

(** ** Authentication traps *)

(** [a or b]. *)
Definition py_or (a b : pyval) : pyval := if py_truthy a then a else b.

Section auth_traps.
Context `{ConfigStore St}.

Definition get_auth_traps_enabled : prog St bool :=
  let* vdata :=
    reg_read_value _HKEY _SNMP_KEY (PStr "EnableAuthenticationTraps") in
  if py_eq vdata (PStr "(value not set)") then ret false
  else ret (py_truthy (py_or vdata (PInt 0))).

Definition set_auth_traps_enabled (status : bool) : prog St bool :=
  let vname := PStr "EnableAuthenticationTraps" in
  let* current_status := get_auth_traps_enabled in
  if bool_decide (status = current_status) then ret true
  else
    let vdata := PInt (if status then 1 else 0) in
    let* _ := reg_set_value _HKEY _SNMP_KEY vname vdata "REG_DWORD" in
    let* new_status := get_auth_traps_enabled in
    if bool_decide (status = new_status) then ret true else ret false.
End auth_traps.

(** ** Community names *)

(** A dictionary whose keys and values are Python values. *)
Abbreviation pydict := (list (pyval * pyval)).

(** [a == b] on dictionaries: the same keys with equal values. *)
Definition dict_eq (a b : pydict) : bool :=
  bool_decide (length a = length b)
  && forallb (λ kv, bool_decide (dict_get b kv.1 = Some kv.2)) a.

(** [d[k]], which raises [KeyError] on a missing key. *)
Definition dict_item (d : pydict) (k : pyval) : result pyval :=
  match dict_get d k with
  | Some v => Ok v
  | None => Raise (KeyError k)
  end.

(** [_PERMISSION_TYPES[k]]: the keys of the table are strings. *)
Definition permission_value (k : pyval) : option Z :=
  match k with
  | PStr permission_name => dict_get _PERMISSION_TYPES permission_name
  | _ => None
  end.

(** The inner loop of [get_community_names]: the first permission name, in
    declared order, whose value is [vdata]; the empty string without one. *)
Fixpoint permission_of (types : list (string * Z)) (vdata : pyval) : string :=
  match types with
  | [] => ""
  | (permission_name, value) :: types =>
      if py_eq vdata (PInt value) then permission_name
      else permission_of types vdata
  end.

(** The loop over the values of the Group Policy key. *)
Definition gpo_communities (ret : pydict) (current_values : list reg_item)
    : pydict :=
  foldl (λ ret current_value,
           match current_value with
           | ItemDict _ vdata => dict_set ret vdata (PStr "Managed by GPO")
           | ItemOther => ret
           end) ret current_values.

(** The loop over the values of the local key. *)
Definition local_communities (ret : pydict) (current_values : list reg_item)
    : pydict :=
  foldl (λ ret current_value,
           match current_value with
           | ItemDict vname vdata =>
               dict_set ret vname (PStr (permission_of _PERMISSION_TYPES vdata))
           | ItemOther => ret
           end) ret current_values.

Definition invalid_permission_message (permission : pyval) : string :=
  "Invalid permission '" +:+ py_str permission
    +:+ "' specified. Valid permissions: dict_keys("
    +:+ py_repr_list get_permission_types +:+ ")".

(** The validation loop of [set_community_names] over the keys of
    [communities]; it rewrites falsy permissions of [communities] in place
    and fills [values]. *)
Fixpoint normalize (vnames : list pyval) (communities values : pydict)
    : result (pydict * pydict) :=
  match vnames with
  | [] => Ok (communities, values)
  | vname :: vnames =>
      match dict_item communities vname with
      | Raise e => Raise e
      | Ok permission =>
          let communities :=
            if negb (py_truthy permission)
            then dict_set communities vname (PStr "None")
            else communities in
          match dict_item communities vname with
          | Raise e => Raise e
          | Ok permission =>
              match permission_value permission with
              | None =>
                  Raise (SaltInvocationError
                           (invalid_permission_message permission))
              | Some vdata =>
                  normalize vnames communities
                    (dict_set values vname (PInt vdata))
              end
          end
      end
  end.

(** The two verification loops of [set_community_names]. *)
Definition failed_unrequested (communities new_communities : pydict)
    : pydict :=
  foldl (λ failed new_vname,
           if negb (dict_mem new_vname communities)
           then dict_set failed new_vname PNone else failed)
    [] (dict_keys new_communities).

Fixpoint failed_requested (vnames : list pyval)
    (communities new_communities failed : pydict) : result pydict :=
  match vnames with
  | [] => Ok failed
  | vname :: vnames =>
      match dict_item communities vname with
      | Raise e => Raise e
      | Ok requested =>
          match dict_item new_communities vname with
          | Raise e => Raise e
          | Ok stored =>
              failed_requested vnames communities new_communities
                (if negb (py_eq requested stored)
                 then dict_set failed vname requested else failed)
          end
      end
  end.

Definition gpo_message : string :=
  "Communities on this system are managed by Group Policy".

Section communities.
Context `{ConfigStore St}.

Definition get_community_names : prog St pydict :=
  let ret_ : pydict := [] in
  let* gpo := reg_key_exists _HKEY _COMMUNITIES_GPO_KEY in
  let* ret_ :=
    if gpo then
      let* current_values := reg_list_values _HKEY _COMMUNITIES_GPO_KEY in
      match current_values with
      | Listing current_values => ret (gpo_communities ret_ current_values)
      | NotAList => ret ret_
      end
    else ret ret_ in
  if bool_decide (ret_ = []) then
    let* current_values := reg_list_values _HKEY _COMMUNITIES_KEY in
    match current_values with
    | Listing current_values => ret (local_communities ret_ current_values)
    | NotAList => ret ret_
    end
  else ret ret_.

Definition set_community_names (communities : pydict) : prog St bool :=
  let* gpo := reg_key_exists _HKEY _COMMUNITIES_GPO_KEY in
  if gpo then raise (CommandExecutionError gpo_message)
  else
    let* current_communities := get_community_names in
    if dict_eq communities current_communities then ret true
    else
      let* normalized :=
        lift (normalize (dict_keys communities) communities []) in
      let communities := normalized.1 in
      let values := normalized.2 in
      let* _ := for_each (dict_keys current_communities) (λ current_vname,
        if dict_mem current_vname values then
          let* current := lift (dict_item current_communities current_vname) in
          let* requested := lift (dict_item values current_vname) in
          when (negb (py_eq current requested))
            (reg_set_value _HKEY _COMMUNITIES_KEY current_vname requested
               "REG_DWORD")
        else reg_delete_value _HKEY _COMMUNITIES_KEY current_vname) in
      let* _ := for_each (dict_keys values) (λ vname,
        when (negb (dict_mem vname current_communities))
          (let* requested := lift (dict_item values vname) in
           reg_set_value _HKEY _COMMUNITIES_KEY vname requested
             "REG_DWORD")) in
      let* new_communities := get_community_names in
      let failed_communities :=
        failed_unrequested communities new_communities in
      let* failed_communities :=
        lift (failed_requested (dict_keys communities) communities
                new_communities failed_communities) in
      if bool_decide (failed_communities ≠ []) then ret false else ret true.
End communities.

(** ** A registry *)

(** Modelled from the spec: the registry behind [__utils__["reg.*"]], which
    is not part of the module.  Every key of a hive either does not exist or
    holds named values; reading a missing value yields [None], writing
    creates the key when needed, and enumeration lists every value of an
    existing key as a well-formed entry.  The type tag of a write is not
    kept. *)
Record registry := Registry {
  reg_values : string → string → option (gmap pyval pyval);
}.

Definition registry_set (r : registry) (hive key : string)
    (vname vdata : pyval) : registry :=
  Registry (λ hive' key',
    if decide (hive' = hive ∧ key' = key)
    then Some (<[vname := vdata]> (default ∅ (reg_values r hive key)))
    else reg_values r hive' key').

Definition registry_delete (r : registry) (hive key : string)
    (vname : pyval) : registry :=
  Registry (λ hive' key',
    if decide (hive' = hive ∧ key' = key)
    then delete vname <$> reg_values r hive key
    else reg_values r hive' key').

Global Instance registry_store : ConfigStore registry := {
  key_exists r hive key := bool_decide (is_Some (reg_values r hive key));
  read_value r hive key vname :=
    default PNone (reg_values r hive key ≫= lookup vname);
  list_values r hive key :=
    match reg_values r hive key with
    | Some values =>
        Listing ((λ kv, ItemDict kv.1 kv.2) <$> map_to_list values)
    | None => NotAList
    end;
  set_value r hive key vname vdata _ := registry_set r hive key vname vdata;
  delete_value := registry_delete;
}.

(** The registry with no key at all, and a registry holding the given
    values under one key. *)
Definition empty_registry : registry := Registry (λ _ _, None).

Definition registry_with (r : registry) (hive key : string)
    (values : list (pyval * pyval)) : registry :=
  Registry (λ hive' key',
    if decide (hive' = hive ∧ key' = key)
    then Some (list_to_map values)
    else reg_values r hive' key').

(** ** Service sets as bitmasks *)

(** The bitmask of a selection of services: the bit values of its members
    combined with bitwise or.  A name outside the enumeration adds nothing. *)
Definition or_mask (selection : list string) : Z :=
  foldr (λ service mask, Z.lor (default 0 (dict_get _SERVICE_TYPES service)) mask)
    0 selection.

(** The members of a selection that carry a bit, that is all but ["None"]. *)
Definition named_services (selection : list string) : list string :=
  filter (λ service, service ≠ "None") selection.

(** The enumeration restricted to the names a predicate keeps. *)
Definition pick (keep : string → bool) (names : list string) : list string :=
  filter (λ service, Is_true (keep service)) names.

(** The sum of the bit values of the services a predicate keeps. *)
Definition mask_of (keep : string → bool) : Z :=
  foldr (λ entry mask, (if keep entry.1 then entry.2 else 0) + mask)
    0 _SERVICE_TYPES.

(** The predicate on service names given by one flag per service, in the
    declared order of the enumeration. *)
Definition from_flags (b0 b1 b2 b3 b4 b5 : bool) (service : string) : bool :=
  if decide (service = "None") then b0
  else if decide (service = "Physical") then b1
  else if decide (service = "Datalink and subnetwork") then b2
  else if decide (service = "Internet") then b3
  else if decide (service = "End-to-end") then b4
  else if decide (service = "Applications") then b5
  else false.

Definition flags_of (keep : string → bool) : string → bool :=
  from_flags (keep "None") (keep "Physical") (keep "Datalink and subnetwork")
    (keep "Internet") (keep "End-to-end") (keep "Applications").

(** The trace of [get_agent_settings]: three reads, in this order. *)
Definition agent_reads : list event :=
  [ ReadValue _HKEY _AGENT_KEY (PStr "sysContact");
    ReadValue _HKEY _AGENT_KEY (PStr "sysLocation");
    ReadValue _HKEY _AGENT_KEY (PStr "sysServices") ].

(** ** Views of the two community keys *)

(** The items of a listing; nothing when the listing is not a list. *)
Definition listed (listing : reg_listing) : list reg_item :=
  match listing with
  | Listing items => items
  | NotAList => []
  end.

(** The well-formed entries of a listing, as pairs of name and data. *)
Definition entries (items : list reg_item) : list (pyval * pyval) :=
  omap (λ item, match item with
                | ItemDict vname vdata => Some (vname, vdata)
                | ItemOther => None
                end) items.

(** The data stored under a name: that of the last entry of this name. *)
Definition stored (table : list (pyval * pyval)) (vname : pyval)
    : option pyval :=
  snd <$> last (filter (λ entry, entry.1 = vname) table).

(** The two traces [get_community_names] can leave. *)
Definition gpo_reads : list event :=
  [ KeyExists _HKEY _COMMUNITIES_GPO_KEY;
    ListValues _HKEY _COMMUNITIES_GPO_KEY ].

Definition local_reads (gpo : bool) : list event :=
  KeyExists _HKEY _COMMUNITIES_GPO_KEY
    :: (if gpo then [ListValues _HKEY _COMMUNITIES_GPO_KEY] else [])
    ++ [ListValues _HKEY _COMMUNITIES_KEY].

(** The two error messages with their enumerations written out. *)
Definition invalid_service_text (service : string) : string :=
  "Invalid service '" +:+ service
    +:+ "' specified. Valid services: ['None', 'Physical', 'Datalink and subnetwork', 'Internet', 'End-to-end', 'Applications']".

Definition invalid_permission_text (permission : pyval) : string :=
  "Invalid permission '" +:+ py_str permission
    +:+ "' specified. Valid permissions: dict_keys(['None', 'Notify', 'Read Only', 'Read Write', 'Read Create'])".

(** ** Writes *)

(** The store after the writes and deletes of a trace, applied in order. *)
Definition replay `{ConfigStore St} (t : list event) (st : St) : St :=
  foldl (λ st e,
           match e with
           | SetValue hive key vname vdata vtype =>
               set_value st hive key vname vdata vtype
           | DeleteValue hive key vname => delete_value st hive key vname
           | _ => st
           end) st t.

(** The writes [set_agent_settings] owes, by the words of the
    specification: a field is written when it is provided and differs from
    the current value; contact and location as strings, the services as the
    or-combination of the bit values of the selection. *)
Definition agent_writes (contact location : pyval)
    (services : option (list string)) (current : agent_settings)
    : list event :=
  (if bool_decide (contact ≠ PNone ∧ contact ≠ Settings.contact current)
   then [SetValue _HKEY _AGENT_KEY (PStr "sysContact") contact "REG_SZ"]
   else [])
  ++ (if bool_decide (location ≠ PNone ∧ location ≠ Settings.location current)
      then [SetValue _HKEY _AGENT_KEY (PStr "sysLocation") location "REG_SZ"]
      else [])
  ++ (match services with
      | Some selection =>
          if bool_decide (list_to_set selection
                            ≠@{gset string}
                          list_to_set (Settings.services current))
          then [SetValue _HKEY _AGENT_KEY (PStr "sysServices")
                  (PInt (or_mask selection)) "REG_DWORD"]
          else []
      | None => []
      end).

(** ** Sample registries *)

(** An agent key with a contact, a location and the services Physical and
    Internet. *)
Definition sample_agent : registry :=
  registry_with empty_registry _HKEY _AGENT_KEY
    [ (PStr "sysContact", PStr "ops"); (PStr "sysLocation", PStr "lab");
      (PStr "sysServices", PInt 5) ].

Definition sample_agent_settings : agent_settings :=
  {| Settings.contact := PStr "ops"; Settings.location := PStr "lab";
     Settings.services := ["Internet"; "Physical"] |}.

(** A local community key with the communities [a] (Read Only) and [b]
    (Notify), and no Group Policy key. *)
Definition sample_communities : registry :=
  registry_with empty_registry _HKEY _COMMUNITIES_KEY
    [ (PStr "a", PInt 4); (PStr "b", PInt 2) ].

(** The values of the local community key of a registry; none when the key
    does not exist. *)
Definition local_table (r : registry) : gmap pyval pyval :=
  default ∅ (reg_values r _HKEY _COMMUNITIES_KEY).

(** The call the first reconciliation loop of [set_community_names] makes
    for a current community: a write of the requested value when the
    community is requested, whatever its current permission, or a delete
    when it is not. *)
Definition reconcile_current (values : pydict) (current_vname : pyval)
    : list event :=
  match dict_get values current_vname with
  | Some requested =>
      [SetValue _HKEY _COMMUNITIES_KEY current_vname requested "REG_DWORD"]
  | None => [DeleteValue _HKEY _COMMUNITIES_KEY current_vname]
  end.

(** The call the second loop makes for a requested community: a write when
    the community is not a current one. *)
Definition reconcile_new (current_communities values : pydict)
    (vname : pyval) : list event :=
  if dict_mem vname current_communities then []
  else match dict_get values vname with
       | Some requested =>
           [SetValue _HKEY _COMMUNITIES_KEY vname requested "REG_DWORD"]
       | None => []
       end.

(** The requested table: every community with the integer of its
    permission. *)
Definition requested_value (communities : pydict) (vname : pyval)
    : option pyval :=
  PInt <$> (dict_get communities vname ≫= permission_value).

(** ** Loading the module *)

Definition __virtualname__ : string := "win_snmp".

(** What [__virtual__] returns: the virtual name, or [False] together with
    a reason. *)
Inductive virtual_result :=
  | Loaded (name : string)
  | NotLoaded (reason : string).

Section virtual.
Context `{ConfigStore St}.

(** [salt.utils.platform.is_windows()] is a fact about the host; it is
    taken as an argument. *)
Definition __virtual__ (is_windows : bool) : prog St virtual_result :=
  if negb is_windows then ret (NotLoaded "Module win_snmp: Requires Windows")
  else
    let* installed := reg_key_exists _HKEY _SNMP_KEY in
    if negb installed
    then ret (NotLoaded "Module win_snmp: SNMP not installed")
    else ret (Loaded __virtualname__).
End virtual.

(** ** A registry that refuses writes *)

(** Modelled from the spec: a registry on which writes and deletes have no
    effect, the situation the verification steps of the module exist for.
    Reads are those of the registry. *)
Record denied := Denied {
  denied_registry : registry;
}.

Global Instance denied_store : ConfigStore denied := {
  key_exists d hive key := key_exists (denied_registry d) hive key;
  read_value d hive key vname := read_value (denied_registry d) hive key vname;
  list_values d hive key := list_values (denied_registry d) hive key;
  set_value d _ _ _ _ _ := d;
  delete_value d _ _ _ := d;
}.

(** ** Shapes of requests *)

(** A selection of services that the bitmask can carry as it is: at least
    one service, and ["None"] only on its own. *)
Definition representable (selection : list string) : Prop :=
  selection ≠ []
  ∧ ("None" ∉ selection ∨ ∀ service, service ∈ selection → service = "None").

(** The trace of [get_auth_traps_enabled]: one read. *)
Definition auth_traps_read : list event :=
  [ReadValue _HKEY _SNMP_KEY (PStr "EnableAuthenticationTraps")].

(** The request as the validation loop of [set_community_names] leaves it
    when it runs to its end: every falsy permission is replaced by
    ["None"]. *)
Definition falsy_as_none (communities : pydict) : pydict :=
  (λ kv, (kv.1, if py_truthy kv.2 then kv.2 else PStr "None"))
    <$> communities.

(** * Properties *)

(** ** Running programs *)

(** One step of a [bind] whose first program is known to yield [Hrun]. *)
Ltac step_with Hrun :=
  unfold bind at 1; rewrite Hrun; cbv beta iota zeta.

Ltac step_call :=
  unfold bind at 1;
  first [ unfold reg_key_exists at 1 | unfold reg_read_value at 1
        | unfold reg_list_values at 1 | unfold reg_set_value at 1
        | unfold reg_delete_value at 1 | unfold lift at 1 ];
  cbv beta iota zeta.

Section running.
Context `{ConfigStore St}.

Lemma bind_trace {A B} (m : prog St A) (k : A → prog St B) st a st1 t1 :
  m st = (Ok a, st1, t1) → (bind m k st).2 = t1 ++ (k a st1).2.
Proof. unfold bind. intros ->. by destruct (k a st1) as [[??]?]. Qed.

Lemma mutations_app t1 t2 : mutations (t1 ++ t2) = mutations t1 ++ mutations t2.
Proof. apply filter_app. Qed.

Lemma get_agent_settings_run st :
  get_agent_settings st =
    (match decode_services
             (read_value st _HKEY _AGENT_KEY (PStr "sysServices")) with
     | Ok services =>
         Ok {| Settings.contact :=
                 read_value st _HKEY _AGENT_KEY (PStr "sysContact");
               Settings.location :=
                 read_value st _HKEY _AGENT_KEY (PStr "sysLocation");
               Settings.services := services |}
     | Raise e => Raise e
     end, st, agent_reads).
Proof.
  unfold get_agent_settings, bind, reg_read_value, lift, ret. simpl.
  by destruct (decode_services _).
Qed.

Lemma get_auth_traps_enabled_run st :
  ∃ status,
    get_auth_traps_enabled st =
      (Ok status, st,
       [ReadValue _HKEY _SNMP_KEY (PStr "EnableAuthenticationTraps")]).
Proof.
  unfold get_auth_traps_enabled, bind, reg_read_value, ret. simpl.
  destruct (py_eq _ _); eauto.
Qed.
End running.

(** ** Authentication traps *)

(** C9: [set_auth_traps_enabled status] reads the current setting; when it
    already equals [status] the call returns [True] and the store is left
    alone (the only event is the read); otherwise it writes [int(status)]
    as a [REG_DWORD] under [EnableAuthenticationTraps], reads the setting
    again and returns [True] exactly when the value read back equals
    [status]. *)
Theorem set_auth_traps_enabled_spec `{ConfigStore St} (st : St)
    (status : bool) :
  let vname := PStr "EnableAuthenticationTraps" in
  let write :=
    SetValue _HKEY _SNMP_KEY vname (PInt (if status then 1 else 0))
      "REG_DWORD" in
  let st' :=
    set_value st _HKEY _SNMP_KEY vname (PInt (if status then 1 else 0))
      "REG_DWORD" in
  ∃ current new,
    get_auth_traps_enabled st = (Ok current, st, [ReadValue _HKEY _SNMP_KEY vname])
    ∧ get_auth_traps_enabled st' = (Ok new, st', [ReadValue _HKEY _SNMP_KEY vname])
    ∧ (status = current →
         set_auth_traps_enabled status st
           = (Ok true, st, [ReadValue _HKEY _SNMP_KEY vname]))
    ∧ (status ≠ current →
         set_auth_traps_enabled status st
           = (Ok (bool_decide (status = new)), st',
              [ReadValue _HKEY _SNMP_KEY vname; write;
               ReadValue _HKEY _SNMP_KEY vname])).
Proof.
  intros vname write st'. subst vname write st'.
  destruct (get_auth_traps_enabled_run st) as [current Hcur].
  destruct (get_auth_traps_enabled_run
              (set_value st _HKEY _SNMP_KEY (PStr "EnableAuthenticationTraps")
                 (PInt (if status then 1 else 0)) "REG_DWORD"))
    as [new Hnew].
  exists current, new. split_and!; [done..| |].
  - intros ->. unfold set_auth_traps_enabled. step_with Hcur.
    by rewrite bool_decide_eq_true_2.
  - intros Hne. unfold set_auth_traps_enabled. step_with Hcur.
    rewrite bool_decide_eq_false_2 by done.
    unfold bind at 1, reg_set_value at 1. cbv beta iota.
    step_with Hnew. by case_bool_decide.
Qed.

(** ** The order on strings *)

Global Instance str_le_total : Total str_le.
Proof. intros a b. apply String.leb_total. Qed.

Global Instance str_le_antisym : AntiSymm (=) str_le.
Proof. intros a b. apply String.leb_antisym. Qed.

Lemma str_le_alt a b :
  str_le a b ↔ a = b ∨ OrderedTypeEx.String_as_OT.lt a b.
Proof.
  unfold str_le, String.leb.
  rewrite <-OrderedTypeEx.String_as_OT.cmp_lt,
    <-OrderedTypeEx.String_as_OT.cmp_eq.
  unfold OrderedTypeEx.String_as_OT.cmp.
  destruct (String.compare a b); naive_solver.
Qed.

Global Instance str_le_trans : Transitive str_le.
Proof.
  intros a b c. rewrite !str_le_alt. intros [->|Hab] [->|Hbc]; auto.
  right. by eapply OrderedTypeEx.String_as_OT.lt_trans.
Qed.

Lemma StronglySorted_sorted l : StronglySorted str_le (sorted l).
Proof. apply StronglySorted_merge_sort; apply _. Qed.

Lemma elem_of_sorted l x : x ∈ sorted l ↔ x ∈ l.
Proof. unfold sorted. by rewrite merge_sort_Permutation. Qed.

Lemma sorted_nil_inv l : sorted l = [] → l = [].
Proof.
  unfold sorted. intros Hl. apply Permutation_nil_r.
  rewrite <-(merge_sort_Permutation str_le l). by rewrite Hl.
Qed.

Lemma StronglySorted_filter_str (P : string → Prop) `{∀ x, Decision (P x)} l :
  StronglySorted str_le l → StronglySorted str_le (filter P l).
Proof.
  induction 1 as [|x l Hl IH Hx]; [constructor|].
  rewrite filter_cons. case_decide; [|done].
  constructor; [done|]. rewrite Forall_forall in Hx |- *.
  intros y [_ Hy]%list_elem_of_filter. by apply Hx.
Qed.

(** Two duplicate-free selections with the same members sort alike. *)
Lemma sorted_unique l1 l2 :
  StronglySorted str_le l1 → StronglySorted str_le l2 →
  NoDup l1 → NoDup l2 → (∀ x, x ∈ l1 ↔ x ∈ l2) → l1 = l2.
Proof.
  intros ?? ?? Hmem. apply (StronglySorted_unique str_le); [done..|].
  by apply NoDup_Permutation.
Qed.

Lemma NoDup_sorted_set l : NoDup (sorted_set l).
Proof.
  unfold sorted_set, sorted. rewrite merge_sort_Permutation.
  apply NoDup_remove_dups.
Qed.

Lemma elem_of_sorted_set l x : x ∈ sorted_set l ↔ x ∈ l.
Proof. unfold sorted_set. by rewrite elem_of_sorted, elem_of_remove_dups. Qed.

(** [sorted(set(l))] of valid names is the sorted enumeration restricted to
    the members of [l]. *)
Lemma sorted_set_pick l :
  Forall (λ service, service ∈ get_agent_service_types) l →
  sorted_set l
    = pick (λ service, bool_decide (service ∈ l)) (sorted get_agent_service_types).
Proof.
  intros Hl. apply sorted_unique.
  - apply StronglySorted_sorted.
  - apply StronglySorted_filter_str, StronglySorted_sorted.
  - apply NoDup_sorted_set.
  - apply NoDup_filter. unfold sorted. rewrite merge_sort_Permutation.
    vm_compute. by repeat (constructor; [set_solver|]); constructor.
  - intros x. rewrite elem_of_sorted_set. unfold pick.
    rewrite list_elem_of_filter, elem_of_sorted, bool_decide_spec.
    rewrite Forall_forall in Hl. naive_solver.
Qed.

(** ** Bitmasks of service selections *)

Lemma elem_of_service_types service :
  service ∈ get_agent_service_types →
  service = "None" ∨ service = "Physical"
  ∨ service = "Datalink and subnetwork" ∨ service = "Internet"
  ∨ service = "End-to-end" ∨ service = "Applications".
Proof. unfold get_agent_service_types. cbn. set_solver. Qed.

Lemma mask_of_ext keep1 keep2 :
  (∀ service, service ∈ get_agent_service_types →
              keep1 service = keep2 service) →
  mask_of keep1 = mask_of keep2.
Proof.
  intros Hext. unfold mask_of. cbn.
  rewrite !Hext by (unfold get_agent_service_types; cbn; set_solver). done.
Qed.

Lemma pick_ext keep1 keep2 names :
  (∀ service, service ∈ names → keep1 service = keep2 service) →
  pick keep1 names = pick keep2 names.
Proof.
  intros Hext. unfold pick. induction names as [|x names IH]; [done|].
  rewrite !filter_cons, (Hext x) by left.
  rewrite IH by (intros; apply Hext; by right). done.
Qed.

(** Adding one service to a selection sets its bit. *)
Lemma mask_of_cons service keep :
  service ∈ get_agent_service_types →
  Z.lor (default 0 (dict_get _SERVICE_TYPES service)) (mask_of keep)
    = mask_of (λ s, bool_decide (s = service) || keep s).
Proof.
  intros Hs. apply elem_of_service_types in Hs.
  unfold mask_of. cbn [foldr _SERVICE_TYPES fst snd].
  destruct_or!; subst service;
    destruct (keep "None"), (keep "Physical"),
      (keep "Datalink and subnetwork"), (keep "Internet"),
      (keep "End-to-end"), (keep "Applications"); reflexivity.
Qed.

(** The or-combination of a selection is the sum of the bits of its
    distinct members. *)
Lemma or_mask_mask_of l :
  Forall (λ service, service ∈ get_agent_service_types) l →
  or_mask l = mask_of (λ service, bool_decide (service ∈ l)).
Proof.
  induction 1 as [|service l Hs Hl IH]; [done|].
  cbn [or_mask foldr]. fold (or_mask l). rewrite IH, mask_of_cons by done.
  apply mask_of_ext. intros s _.
  rewrite <-bool_decide_or. apply bool_decide_ext. set_solver.
Qed.

Lemma flags_of_spec keep service :
  service ∈ get_agent_service_types → keep service = flags_of keep service.
Proof.
  intros Hs%elem_of_service_types. by destruct_or!; subst service.
Qed.

Lemma mask_of_flags keep : mask_of keep = mask_of (flags_of keep).
Proof. apply mask_of_ext, flags_of_spec. Qed.

Lemma pick_flags keep :
  pick keep (sorted get_agent_service_types)
    = pick (flags_of keep) (sorted get_agent_service_types).
Proof.
  apply pick_ext. intros s Hs. apply flags_of_spec. by apply elem_of_sorted.
Qed.

(** Reduce a statement about an arbitrary predicate to the sixty-four
    selections of flags, each settled by evaluation. *)
Ltac by_service_flags keep :=
  rewrite ?(mask_of_flags keep), ?(pick_flags keep); unfold flags_of;
  generalize (keep "None"), (keep "Physical"),
    (keep "Datalink and subnetwork"), (keep "Internet"),
    (keep "End-to-end"), (keep "Applications");
  intros [] [] [] [] [] []; vm_compute; reflexivity.

(** The sum the writer computes for a sorted selection. *)
Lemma service_sum_pick keep :
  service_sum (pick keep (sorted get_agent_service_types)) = Ok (mask_of keep).
Proof. by_service_flags keep. Qed.

(** The reader's decoding of the sum of any selection of bits. *)
Lemma decode_services_mask_of keep :
  decode_services (PInt (mask_of keep))
    = Ok (match pick (λ s, keep s && bool_decide (s ≠ "None"))
                  (sorted get_agent_service_types) with
          | [] => ["None"]
          | named => named
          end).
Proof.
  rewrite (pick_ext _
    (from_flags false (keep "Physical") (keep "Datalink and subnetwork")
       (keep "Internet") (keep "End-to-end") (keep "Applications"))).
  - by_service_flags keep.
  - intros s Hs%elem_of_sorted%elem_of_service_types.
    destruct_or!; subst s; vm_compute; by destruct (keep _).
Qed.

Lemma sorted_set_nil_inv l : sorted_set l = [] → l = [].
Proof.
  intros Hl%sorted_nil_inv. destruct l as [|x l]; [done|].
  assert (x ∈ remove_dups (x :: l)) as Hx by (apply elem_of_remove_dups; left).
  rewrite Hl in Hx. by apply elem_of_nil in Hx.
Qed.

Lemma Forall_named_services (P : string → Prop) selection :
  Forall P selection → Forall P (named_services selection).
Proof.
  rewrite !Forall_forall. intros HP x [_ Hx]%list_elem_of_filter. by apply HP.
Qed.

(** The decoding of the or-combination of any selection of services. *)
Lemma decode_services_or_mask selection :
  Forall (λ service, service ∈ get_agent_service_types) selection →
  decode_services (PInt (or_mask selection))
    = Ok (match named_services selection with
          | [] => ["None"]
          | _ => sorted_set (named_services selection)
          end).
Proof.
  intros Hvalid.
  rewrite or_mask_mask_of, decode_services_mask_of by done. f_equal.
  rewrite (pick_ext _ (λ s, bool_decide (s ∈ named_services selection))).
  2:{ intros s _. rewrite <-bool_decide_and. apply bool_decide_ext.
      unfold named_services. rewrite list_elem_of_filter. naive_solver. }
  rewrite <-sorted_set_pick by by apply Forall_named_services.
  destruct (named_services selection) as [|x l] eqn:Hnamed; [done|].
  destruct (sorted_set (x :: l)) eqn:Hsorted; [|done].
  by apply sorted_set_nil_inv in Hsorted.
Qed.

(** C1 (as amended): when the stored [sysServices] value is the
    or-combination of the bit values of a selection of ServiceType members,
    [get_agent_settings] returns, sorted by name and without duplicates, the
    members of the selection other than ["None"]; when there is no such
    member (the bitmask is 0) it returns the single service ["None"]. *)
Theorem get_agent_settings_decodes_or_mask `{ConfigStore St} (st : St)
    (selection : list string) :
  Forall (λ service, service ∈ get_agent_service_types) selection →
  read_value st _HKEY _AGENT_KEY (PStr "sysServices")
    = PInt (or_mask selection) →
  ∃ settings,
    get_agent_settings st = (Ok settings, st, agent_reads)
    ∧ Settings.services settings
      = match named_services selection with
        | [] => ["None"]
        | _ => sorted_set (named_services selection)
        end.
Proof.
  intros Hvalid Hread. rewrite get_agent_settings_run, Hread.
  rewrite decode_services_or_mask by done. eauto.
Qed.

Lemma get_agent_settings_decodes_or_mask_witness :
  ∃ settings,
    get_agent_settings
      (registry_with empty_registry _HKEY _AGENT_KEY
         [(PStr "sysServices", PInt 5)])
    = (Ok settings,
       registry_with empty_registry _HKEY _AGENT_KEY
         [(PStr "sysServices", PInt 5)], agent_reads)
    ∧ Settings.services settings
      = match named_services ["Physical"; "Internet"; "Physical"] with
        | [] => ["None"]
        | _ => sorted_set (named_services ["Physical"; "Internet"; "Physical"])
        end.
Proof.
  apply (get_agent_settings_decodes_or_mask
           (registry_with empty_registry _HKEY _AGENT_KEY
              [(PStr "sysServices", PInt 5)])
           ["Physical"; "Internet"; "Physical"]).
  - unfold get_agent_service_types. cbn. repeat constructor; set_solver.
  - reflexivity.
Defined.

(** C1 (as stated) fails on the selection ["None"; "Physical"]: its
    or-combination is 1, which decodes to ["Physical"] alone. *)
Lemma get_agent_settings_drops_none :
  let selection := ["None"; "Physical"] in
  let st :=
    registry_with empty_registry _HKEY _AGENT_KEY
      [(PStr "sysServices", PInt (or_mask selection))] in
  ∃ settings,
    (get_agent_settings st).1.1 = Ok settings
    ∧ Settings.services settings = ["Physical"]
    ∧ Settings.services settings ≠ sorted_set selection.
Proof. eexists. split_and!; [reflexivity| reflexivity | by vm_compute]. Qed.

(** ** Dictionaries *)

Section dict_properties.
Context {K V : Type} `{EqDecision K}.
Implicit Types (d : list (K * V)) (k : K) (v : V).

Lemma dict_get_None d k : dict_get d k = None ↔ k ∉ dict_keys d.
Proof.
  unfold dict_keys. induction d as [|[k' v'] d IH]; cbn.
  - split; [intros _; apply not_elem_of_nil|done].
  - rewrite not_elem_of_cons. case_decide; naive_solver.
Qed.

Lemma dict_get_is_Some d k : is_Some (dict_get d k) ↔ k ∈ dict_keys d.
Proof.
  rewrite <-not_eq_None_Some, dict_get_None.
  destruct (decide (k ∈ dict_keys d)); naive_solver.
Qed.

Lemma dict_get_Some_elem d k v : dict_get d k = Some v → (k, v) ∈ d.
Proof.
  induction d as [|[k' v'] d IH]; cbn; [done|].
  case_decide; [intros [= ->]; subst; left|right; auto].
Qed.

Lemma dict_get_elem d k v :
  NoDup (dict_keys d) → (k, v) ∈ d → dict_get d k = Some v.
Proof.
  unfold dict_keys. induction d as [|[k' v'] d IH]; cbn.
  - by intros _ ?%elem_of_nil.
  - intros [Hk' Hd]%NoDup_cons [[= -> ->]|Hin]%elem_of_cons.
    + by rewrite decide_True.
    + rewrite decide_False; [auto|]. intros ->. apply Hk'.
      by apply (list_elem_of_fmap_2 fst) in Hin.
Qed.

Lemma dict_mem_spec k d : dict_mem k d = true ↔ k ∈ dict_keys d.
Proof. unfold dict_mem. by rewrite bool_decide_eq_true. Qed.

Lemma dict_get_set d k v k' :
  dict_get (dict_set d k v) k'
    = if decide (k = k') then Some v else dict_get d k'.
Proof.
  induction d as [|[k1 v1] d IH]; cbn.
  - done.
  - destruct (decide (k1 = k)) as [->|]; cbn.
    + by destruct (decide (k = k')).
    + rewrite IH. destruct (decide (k1 = k')), (decide (k = k')); congruence.
Qed.

Lemma dict_keys_set d k v :
  dict_keys (dict_set d k v)
    = if decide (k ∈ dict_keys d) then dict_keys d else dict_keys d ++ [k].
Proof.
  unfold dict_keys. induction d as [|[k1 v1] d IH]; cbn.
  - rewrite decide_False; [done|apply not_elem_of_nil].
  - destruct (decide (k1 = k)) as [->|Hne]; cbn.
    + rewrite decide_True; [done|left].
    + rewrite IH. destruct (decide (k ∈ d.*1)).
      * rewrite decide_True; [done|by right].
      * rewrite decide_False; [done|]. rewrite not_elem_of_cons. naive_solver.
Qed.

Lemma elem_of_dict_keys_set d k v k' :
  k' ∈ dict_keys (dict_set d k v) ↔ k' = k ∨ k' ∈ dict_keys d.
Proof.
  rewrite dict_keys_set. case_decide; [naive_solver|].
  rewrite elem_of_app, list_elem_of_singleton. naive_solver.
Qed.

Lemma NoDup_dict_keys_set d k v :
  NoDup (dict_keys d) → NoDup (dict_keys (dict_set d k v)).
Proof.
  intros Hd. rewrite dict_keys_set. case_decide; [done|].
  apply NoDup_app. split_and!; [done| |apply NoDup_singleton].
  intros x Hx ->%list_elem_of_singleton. done.
Qed.

Lemma dict_set_nil_inv d k v : dict_set d k v ≠ [].
Proof. destruct d as [|[??] ?]; cbn; [done|]. by case_decide. Qed.
End dict_properties.

(** ** Reading the community names *)

Lemma stored_cons k1 v1 table k :
  stored ((k1, v1) :: table) k
    = match stored table k with
      | Some v => Some v
      | None => if decide (k1 = k) then Some v1 else None
      end.
Proof.
  unfold stored. rewrite filter_cons. cbn. case_decide.
  - rewrite last_cons. by destruct (last _).
  - by destruct (last _).
Qed.

Lemma stored_Some_elem table k v : stored table k = Some v → (k, v) ∈ table.
Proof.
  induction table as [|[k1 v1] table IH]; [done|].
  rewrite stored_cons. destruct (stored table k) eqn:Hst.
  - intros [= ->]. right. auto.
  - case_decide; [|done]. intros [= ->]. subst. left.
Qed.

Lemma stored_None table k : stored table k = None ↔ k ∉ table.*1.
Proof.
  induction table as [|[k1 v1] table IH]; cbn.
  - split; [intros _; apply not_elem_of_nil|done].
  - rewrite stored_cons, not_elem_of_cons. destruct (stored table k).
    + split; [done|]. intros [_ Hk]. by apply IH in Hk.
    + case_decide; naive_solver.
Qed.

(** Folding assignments into a dictionary: the last one for a key wins. *)
Lemma dict_get_foldl_set (f : pyval → pyval) (table d : pydict) k :
  dict_get (foldl (λ d entry, dict_set d entry.1 (f entry.2)) d table) k
    = match stored table k with
      | Some v => Some (f v)
      | None => dict_get d k
      end.
Proof.
  revert d. induction table as [|[k1 v1] table IH]; intros d; [done|].
  cbn [foldl]. rewrite IH, stored_cons. destruct (stored table k); [done|].
  cbn. rewrite dict_get_set. by case_decide.
Qed.

Lemma foldl_set_nil_inv (f : pyval → pyval) (table d : pydict) :
  foldl (λ d entry, dict_set d entry.1 (f entry.2)) d table = [] →
  table = [] ∧ d = [].
Proof.
  revert d. induction table as [|[k1 v1] table IH]; intros d; [done|].
  cbn [foldl]. intros [_ Hd]%IH. by apply dict_set_nil_inv in Hd.
Qed.

Lemma gpo_communities_entries d items :
  gpo_communities d items
    = foldl (λ d entry, dict_set d entry.2 (PStr "Managed by GPO")) d
        (entries items).
Proof.
  revert d. induction items as [|[vname vdata|] items IH]; intros d; cbn; auto.
Qed.

Lemma local_communities_entries d items :
  local_communities d items
    = foldl (λ d entry,
               dict_set d entry.1 (PStr (permission_of _PERMISSION_TYPES entry.2)))
        d (entries items).
Proof.
  revert d. induction items as [|[vname vdata|] items IH]; intros d; cbn; auto.
Qed.

Lemma dict_get_local_communities items k :
  dict_get (local_communities [] items) k
    = (λ vdata, PStr (permission_of _PERMISSION_TYPES vdata))
        <$> stored (entries items) k.
Proof.
  rewrite local_communities_entries.
  rewrite (dict_get_foldl_set
             (λ vdata, PStr (permission_of _PERMISSION_TYPES vdata))).
  by destruct (stored _ _).
Qed.

Lemma dict_get_gpo_communities items k :
  dict_get (gpo_communities [] items) k
    = if decide (k ∈ (entries items).*2) then Some (PStr "Managed by GPO")
      else None.
Proof.
  rewrite gpo_communities_entries.
  induction (entries items) as [|[k1 v1] table IH] using rev_ind; [done|].
  rewrite foldl_app. cbn. rewrite dict_get_set, IH, fmap_app. cbn.
  destruct (decide (v1 = k)) as [->|Hne].
  - rewrite decide_True; [done|]. rewrite elem_of_app. right. left.
  - destruct (decide (k ∈ table.*2)).
    + rewrite decide_True; [done|]. rewrite elem_of_app. by left.
    + rewrite decide_False; [done|].
      rewrite elem_of_app, list_elem_of_singleton. naive_solver.
Qed.

Lemma gpo_communities_nil items :
  gpo_communities [] items = [] ↔ entries items = [].
Proof.
  rewrite gpo_communities_entries. split.
  - destruct (entries items) as [|[k1 v1] table] using rev_ind; [done|].
    rewrite foldl_app. cbn. by intros ?%dict_set_nil_inv.
  - by intros ->.
Qed.

Section reading_communities.
Context `{ConfigStore St}.
Implicit Types st : St.

(** Without a Group Policy key the names come from the local key. *)
Lemma get_community_names_local st :
  key_exists st _HKEY _COMMUNITIES_GPO_KEY = false →
  get_community_names st
    = (Ok (local_communities []
             (listed (list_values st _HKEY _COMMUNITIES_KEY))),
       st, local_reads false).
Proof.
  intros Hgpo. unfold get_community_names.
  step_call. rewrite Hgpo. unfold bind, ret, reg_list_values. cbn.
  by destruct (list_values _ _ _).
Qed.

(** With a Group Policy key that lists no well-formed entry as well. *)
Lemma get_community_names_empty_gpo st :
  key_exists st _HKEY _COMMUNITIES_GPO_KEY = true →
  entries (listed (list_values st _HKEY _COMMUNITIES_GPO_KEY)) = [] →
  get_community_names st
    = (Ok (local_communities []
             (listed (list_values st _HKEY _COMMUNITIES_KEY))),
       st, local_reads true).
Proof.
  intros Hgpo Hnone. unfold get_community_names.
  step_call. rewrite Hgpo. unfold bind, ret, reg_list_values. cbn.
  destruct (list_values st _HKEY _COMMUNITIES_GPO_KEY) as [items|]; cbn in *.
  - apply gpo_communities_nil in Hnone. rewrite Hnone. cbn.
    by destruct (list_values _ _ _).
  - by destruct (list_values _ _ _).
Qed.

(** With a Group Policy key that lists a well-formed entry the local key
    is not read. *)
Lemma get_community_names_gpo st :
  key_exists st _HKEY _COMMUNITIES_GPO_KEY = true →
  entries (listed (list_values st _HKEY _COMMUNITIES_GPO_KEY)) ≠ [] →
  get_community_names st
    = (Ok (gpo_communities []
             (listed (list_values st _HKEY _COMMUNITIES_GPO_KEY))),
       st, gpo_reads).
Proof.
  intros Hgpo Hsome. unfold get_community_names.
  step_call. rewrite Hgpo. unfold bind, ret, reg_list_values. cbn.
  destruct (list_values st _HKEY _COMMUNITIES_GPO_KEY) as [items|]; cbn in *;
    [|done].
  rewrite bool_decide_eq_false_2; [done|]. by rewrite gpo_communities_nil.
Qed.
End reading_communities.

(** The reverse lookup of a stored permission value. *)
Lemma permission_of_member permission_name value :
  (permission_name, value) ∈ _PERMISSION_TYPES →
  permission_of _PERMISSION_TYPES (PInt value) = permission_name.
Proof.
  unfold _PERMISSION_TYPES. rewrite !elem_of_cons, elem_of_nil.
  intros Hin. destruct_or!; by simplify_eq.
Qed.

Lemma permission_of_other vdata :
  (∀ permission_name value,
     (permission_name, value) ∈ _PERMISSION_TYPES → vdata ≠ PInt value) →
  permission_of _PERMISSION_TYPES vdata = "".
Proof.
  intros Hother. unfold _PERMISSION_TYPES in *. cbn. unfold py_eq.
  repeat case_bool_decide; try done;
    match goal with
    | Hv : vdata = PInt ?v |- _ => exfalso; eapply (Hother _ v); [|exact Hv]
    end;
    repeat first [apply list_elem_of_here | apply list_elem_of_further].
Qed.

(** C8: [get_community_names] gives precedence to Group Policy.  When the
    Group Policy key exists and lists a well-formed entry, the result maps
    exactly the listed community names to ["Managed by GPO"], and the local
    key is not read.  When that key is absent, or lists no well-formed
    entry, the result comes from the local key: every listed name is mapped
    to the first permission name, in declared order, whose value equals the
    stored data, or to the empty string without one.  An existing Group
    Policy key without a well-formed entry thus gives way to the local key
    for reads, while it still makes [set_community_names] raise. *)
Theorem get_community_names_precedence `{ConfigStore St} (st : St) :
  let gpo := entries (listed (list_values st _HKEY _COMMUNITIES_GPO_KEY)) in
  let local := entries (listed (list_values st _HKEY _COMMUNITIES_KEY)) in
  (key_exists st _HKEY _COMMUNITIES_GPO_KEY = true → gpo ≠ [] →
     ∃ names,
       get_community_names st = (Ok names, st, gpo_reads)
       ∧ (ListValues _HKEY _COMMUNITIES_KEY ∉ gpo_reads)
       ∧ ∀ community,
           dict_get names community
             = if decide (community ∈ gpo.*2)
               then Some (PStr "Managed by GPO") else None)
  ∧ (key_exists st _HKEY _COMMUNITIES_GPO_KEY = false ∨ gpo = [] →
     ∃ names,
       get_community_names st
         = (Ok names, st,
            local_reads (key_exists st _HKEY _COMMUNITIES_GPO_KEY))
       ∧ ∀ community,
           dict_get names community
             = (λ vdata, PStr (permission_of _PERMISSION_TYPES vdata))
                 <$> stored local community)
  ∧ (key_exists st _HKEY _COMMUNITIES_GPO_KEY = true →
     ∀ communities,
       (set_community_names communities st).1.1
         = Raise (CommandExecutionError gpo_message))
  ∧ (∀ permission_name value,
       (permission_name, value) ∈ _PERMISSION_TYPES →
       permission_of _PERMISSION_TYPES (PInt value) = permission_name)
  ∧ (∀ vdata,
       (∀ permission_name value,
          (permission_name, value) ∈ _PERMISSION_TYPES → vdata ≠ PInt value) →
       permission_of _PERMISSION_TYPES vdata = "").
Proof.
  intros gpo local. split_and!.
  - intros Hgpo Hsome. eexists. split_and!.
    + by apply get_community_names_gpo.
    + unfold gpo_reads. vm_compute. set_solver.
    + apply dict_get_gpo_communities.
  - intros Hcase. eexists. split.
    + destruct (key_exists st _HKEY _COMMUNITIES_GPO_KEY) eqn:Hgpo.
      * apply get_community_names_empty_gpo; naive_solver.
      * by apply get_community_names_local.
    + apply dict_get_local_communities.
  - intros Hgpo communities. unfold set_community_names. step_call.
    by rewrite Hgpo.
  - apply permission_of_member.
  - apply permission_of_other.
Qed.

Lemma get_community_names_precedence_witness :
  let st :=
    registry_with sample_communities _HKEY _COMMUNITIES_GPO_KEY
      [(PInt 1, PStr "public")] in
  ∃ names,
    get_community_names st = (Ok names, st, gpo_reads)
    ∧ (ListValues _HKEY _COMMUNITIES_KEY ∉ gpo_reads)
    ∧ ∀ community,
        dict_get names community
          = if decide (community
                         ∈ (entries (listed (list_values st _HKEY
                                               _COMMUNITIES_GPO_KEY))).*2)
            then Some (PStr "Managed by GPO") else None.
Proof.
  apply (proj1 (get_community_names_precedence
                  (registry_with sample_communities _HKEY _COMMUNITIES_GPO_KEY
                     [(PInt 1, PStr "public")]))).
  - reflexivity.
  - vm_compute. discriminate.
Defined.

(** ** Group Policy and invalid names *)

(** C4: whenever the Group Policy community key exists,
    [set_community_names] raises [CommandExecutionError] with the Group
    Policy message, whatever the key holds and whatever mapping is
    requested, after a single existence check: the store is unchanged and
    no write or delete is issued. *)
Theorem set_community_names_gpo `{ConfigStore St} (st : St)
    (communities : pydict) :
  key_exists st _HKEY _COMMUNITIES_GPO_KEY = true →
  set_community_names communities st
    = (Raise (CommandExecutionError
                "Communities on this system are managed by Group Policy"),
       st, [KeyExists _HKEY _COMMUNITIES_GPO_KEY])
  ∧ mutations [KeyExists _HKEY _COMMUNITIES_GPO_KEY] = [].
Proof.
  intros Hgpo. split; [|done].
  unfold set_community_names. step_call. by rewrite Hgpo.
Qed.

Lemma set_community_names_gpo_witness :
  let st := registry_with empty_registry _HKEY _COMMUNITIES_GPO_KEY [] in
  set_community_names [(PStr "public", PStr "Read Only")] st
    = (Raise (CommandExecutionError
                "Communities on this system are managed by Group Policy"),
       st, [KeyExists _HKEY _COMMUNITIES_GPO_KEY])
  ∧ mutations [KeyExists _HKEY _COMMUNITIES_GPO_KEY] = [].
Proof.
  apply (set_community_names_gpo
           (registry_with empty_registry _HKEY _COMMUNITIES_GPO_KEY [])
           [(PStr "public", PStr "Read Only")]).
  reflexivity.
Defined.

Lemma invalid_service_message_text service :
  invalid_service_message service = invalid_service_text service.
Proof. reflexivity. Qed.

Lemma invalid_permission_message_text permission :
  invalid_permission_message permission = invalid_permission_text permission.
Proof. reflexivity. Qed.

Section validation.
Context `{ConfigStore St}.
Implicit Types st : St.

(** The validation loop of [set_agent_settings] makes no call. *)
Lemma validate_services_ok services st :
  Forall (λ service, service ∈ get_agent_service_types) services →
  for_each services (λ service,
    if dict_mem service _SERVICE_TYPES then ret tt
    else raise (SaltInvocationError (invalid_service_message service))) st
  = (Ok tt, st, []).
Proof.
  induction 1 as [|service services Hs _ IH]; [done|].
  cbn [for_each]. unfold bind at 1.
  unfold dict_mem at 1. rewrite bool_decide_eq_true_2 by done.
  unfold ret at 1. by rewrite IH.
Qed.

Lemma validate_services_raise services st :
  ¬ Forall (λ service, service ∈ get_agent_service_types) services →
  ∃ bad,
    bad ∈ services ∧ (bad ∉ get_agent_service_types)
    ∧ for_each services (λ service,
        if dict_mem service _SERVICE_TYPES then ret tt
        else raise (SaltInvocationError (invalid_service_message service))) st
      = (Raise (SaltInvocationError (invalid_service_message bad)), st, []).
Proof.
  induction services as [|service services IH]; intros Hbad.
  - by destruct Hbad.
  - cbn [for_each]. unfold bind at 1. unfold dict_mem at 1.
    destruct (decide (service ∈ get_agent_service_types)) as [Hs|Hs].
    + rewrite bool_decide_eq_true_2 by done. unfold ret at 1.
      destruct IH as (bad & ? & ? & ->).
      { intros Hall. apply Hbad. by constructor. }
      exists bad. split_and!; [by right|done..].
    + rewrite bool_decide_eq_false_2 by done.
      exists service. split_and!; [left|done..].
Qed.
End validation.

(** What the local key can report as a permission: the empty string or a
    member of the enumeration. *)
Lemma permission_of_cases vdata :
  permission_of _PERMISSION_TYPES vdata = ""
  ∨ is_Some (permission_value (PStr (permission_of _PERMISSION_TYPES vdata))).
Proof.
  unfold _PERMISSION_TYPES. cbn [permission_of].
  repeat (destruct (py_eq vdata _); [right; by eexists|]). by left.
Qed.

(** The validation loop of [set_community_names] stops at a permission that
    is truthy and not in the enumeration. *)
Lemma normalize_raises vnames (communities values : pydict) :
  vnames ⊆ dict_keys communities →
  (∃ vname permission,
     vname ∈ vnames ∧ dict_get communities vname = Some permission
     ∧ py_truthy permission = true ∧ permission_value permission = None) →
  ∃ vname bad,
    dict_get communities vname = Some bad
    ∧ py_truthy bad = true ∧ permission_value bad = None
    ∧ normalize vnames communities values
      = Raise (SaltInvocationError (invalid_permission_message bad)).
Proof.
  revert communities values.
  induction vnames as [|vname vnames IH]; intros communities values Hkeys Hbad.
  { destruct Hbad as (? & ? & []%elem_of_nil & _). }
  assert (vname ∈ dict_keys communities) as Hvname by (apply Hkeys; left).
  apply dict_get_is_Some in Hvname as [permission Hpermission].
  cbn [normalize]. unfold dict_item at 1. rewrite Hpermission.
  destruct (py_truthy permission) eqn:Htruthy; cbn [negb].
  - unfold dict_item. rewrite Hpermission.
    destruct (permission_value permission) as [vdata|] eqn:Hvalue.
    + apply IH.
      * intros k Hk. apply Hkeys. by right.
      * destruct Hbad as (k & p & [->|Hk]%elem_of_cons & Hp & ? & ?);
          [congruence|eauto 10].
    + exists vname, permission. by split_and!.
  - unfold dict_item. rewrite dict_get_set, decide_True by done.
    cbv beta iota. change (permission_value (PStr "None")) with (Some 1).
    cbv beta iota.
    destruct (IH (dict_set communities vname (PStr "None"))
                (dict_set values vname (PInt 1)))
      as (k & bad & Hk & ? & Hinvalid & ->).
    + intros k Hk. apply elem_of_dict_keys_set. right. apply Hkeys. by right.
    + destruct Hbad as (k & p & [->|Hk]%elem_of_cons & Hp & ? & ?);
        [congruence|].
      exists k, p. rewrite dict_get_set. case_decide; [congruence|done].
    + rewrite dict_get_set in Hk. case_decide; [by simplify_eq|].
      exists k, bad. by split_and!.
Qed.

(** A requested permission that is truthy and not in the enumeration makes
    the request differ from every local table. *)
Lemma dict_eq_local_invalid (communities : pydict) items vname permission :
  (vname, permission) ∈ communities →
  py_truthy permission = true → permission_value permission = None →
  dict_eq communities (local_communities [] items) = false.
Proof.
  intros Hin Htruthy Hinvalid. apply not_true_is_false. unfold dict_eq.
  intros [_ Hall]%andb_true_iff. rewrite forallb_forall in Hall.
  apply list_elem_of_In, Hall, bool_decide_eq_true in Hin.
  cbn [fst snd] in Hin.
  rewrite dict_get_local_communities in Hin.
  destruct (stored _ _) as [vdata|]; [|done].
  change (Some (PStr (permission_of _PERMISSION_TYPES vdata)) = Some permission)
    in Hin.
  assert (permission = PStr (permission_of _PERMISSION_TYPES vdata)) as ->
    by congruence.
  destruct (permission_of_cases vdata) as [Hempty|[? ?]]; [|congruence].
  by rewrite Hempty in Htruthy.
Qed.

(** An invalid service name stops [set_agent_settings] before any call. *)
Lemma set_agent_settings_invalid `{ConfigStore St} (st : St)
    (contact location : pyval) (services : list string) :
  ¬ Forall (λ service, service ∈ get_agent_service_types) services →
  ∃ bad,
    bad ∈ services ∧ (bad ∉ get_agent_service_types)
    ∧ set_agent_settings contact location (Some services) st
      = (Raise (SaltInvocationError (invalid_service_text bad)), st, []).
Proof.
  intros Hbad.
  destruct (validate_services_raise (sorted_set services) st)
    as (bad & Hin & Hnot & Hrun).
  { rewrite Forall_forall in Hbad |- *. intros Hall. apply Hbad.
    intros x Hx. by apply Hall, elem_of_sorted_set. }
  exists bad. split_and!; [by apply elem_of_sorted_set|done|].
  unfold set_agent_settings. unfold bind at 1. unfold bind at 1.
  by rewrite Hrun.
Qed.


(** C5 (as amended): a services entry outside the ServiceType enumeration
    makes [set_agent_settings] raise [SaltInvocationError] before any call
    to the store; when no Group Policy community key exists, a requested
    permission that is truthy and outside the PermissionType enumeration
    makes [set_community_names] raise [SaltInvocationError] after reads
    only.  Either message names the bad value and enumerates the valid
    choices, and no write or delete is issued. *)
Theorem invalid_names_raise `{ConfigStore St} (st : St) :
  (∀ contact location services,
     ¬ Forall (λ service, service ∈ get_agent_service_types) services →
     ∃ bad,
       bad ∈ services ∧ (bad ∉ get_agent_service_types)
       ∧ set_agent_settings contact location (Some services) st
         = (Raise (SaltInvocationError (invalid_service_text bad)), st, []))
  ∧ (∀ communities vname permission,
       key_exists st _HKEY _COMMUNITIES_GPO_KEY = false →
       NoDup (dict_keys communities) →
       (vname, permission) ∈ communities →
       py_truthy permission = true → permission_value permission = None →
       ∃ bad,
         bad ∈ communities.*2
         ∧ py_truthy bad = true ∧ permission_value bad = None
         ∧ set_community_names communities st
           = (Raise (SaltInvocationError (invalid_permission_text bad)), st,
              KeyExists _HKEY _COMMUNITIES_GPO_KEY :: local_reads false)
         ∧ mutations (KeyExists _HKEY _COMMUNITIES_GPO_KEY :: local_reads false)
           = []).
Proof.
  split.
  - apply set_agent_settings_invalid.
  - intros communities vname permission Hgpo Hnodup Hin Htruthy Hinvalid.
    destruct (normalize_raises (dict_keys communities) communities [])
      as (k & bad & Hk & ? & ? & Hrun).
    { done. }
    { exists vname, permission. split_and!; [|by apply dict_get_elem|done..].
      by apply (list_elem_of_fmap_2 fst) in Hin. }
    exists bad. split_and!; [|done..| |done].
    { apply dict_get_Some_elem in Hk. by apply (list_elem_of_fmap_2 snd) in Hk. }
    unfold set_community_names. step_call. rewrite Hgpo.
    step_with (get_community_names_local st Hgpo).
    rewrite (dict_eq_local_invalid _ _ vname permission) by done.
    unfold bind at 1, lift at 1. by rewrite Hrun.
Qed.

Lemma invalid_names_raise_witness :
  (∃ bad,
     bad ∈ ["Physical"; "Bogus"] ∧ (bad ∉ get_agent_service_types)
     ∧ set_agent_settings PNone PNone (Some ["Physical"; "Bogus"])
         empty_registry
       = (Raise (SaltInvocationError (invalid_service_text bad)),
          empty_registry, []))
  ∧ (∃ bad,
       bad ∈ [(PStr "public", PStr "Bogus")].*2
       ∧ py_truthy bad = true ∧ permission_value bad = None
       ∧ set_community_names [(PStr "public", PStr "Bogus")] empty_registry
         = (Raise (SaltInvocationError (invalid_permission_text bad)),
            empty_registry,
            KeyExists _HKEY _COMMUNITIES_GPO_KEY :: local_reads false)
       ∧ mutations (KeyExists _HKEY _COMMUNITIES_GPO_KEY :: local_reads false)
         = []).
Proof.
  split.
  - apply (proj1 (invalid_names_raise empty_registry) PNone PNone
             ["Physical"; "Bogus"]).
    intros Hall. apply Forall_cons in Hall as [_ Hall].
    apply Forall_cons in Hall as [Hbogus _].
    by apply elem_of_service_types in Hbogus; destruct_or!.
  - apply (proj2 (invalid_names_raise empty_registry)
             [(PStr "public", PStr "Bogus")] (PStr "public") (PStr "Bogus")).
    + reflexivity.
    + cbn. apply NoDup_singleton.
    + left.
    + reflexivity.
    + reflexivity.
Defined.

(** C5 (as stated) fails when the Group Policy community key exists: an
    invalid permission name then raises [CommandExecutionError], not
    [SaltInvocationError]. *)
Lemma invalid_permission_under_gpo :
  let st := registry_with empty_registry _HKEY _COMMUNITIES_GPO_KEY [] in
  let communities := [(PStr "public", PStr "Bogus")] in
  py_truthy (PStr "Bogus") = true
  ∧ permission_value (PStr "Bogus") = None
  ∧ (set_community_names communities st).1.1
    = Raise (CommandExecutionError gpo_message)
  ∧ ¬ ∃ message,
        (set_community_names communities st).1.1
          = Raise (SaltInvocationError message).
Proof. split_and!; [reflexivity..|]. by intros [message [=]]. Qed.

(** ** Writing the agent settings *)

Lemma same_set_spec (a b : list string) :
  same_set a b = bool_decide (list_to_set a =@{gset string} list_to_set b).
Proof. unfold same_set. apply bool_decide_ext. set_solver. Qed.

Lemma list_to_set_sorted_set (l : list string) :
  list_to_set (sorted_set l) =@{gset string} list_to_set l.
Proof.
  apply set_eq. intros x. by rewrite !elem_of_list_to_set, elem_of_sorted_set.
Qed.

Lemma Forall_sorted_set (P : string → Prop) l :
  Forall P l → Forall P (sorted_set l).
Proof.
  rewrite !Forall_forall. intros HP x Hx. by apply HP, elem_of_sorted_set.
Qed.

(** The sum the writer stores is the or-combination of the selection. *)
Lemma service_sum_sorted_set selection :
  Forall (λ service, service ∈ get_agent_service_types) selection →
  service_sum (sorted_set selection) = Ok (or_mask selection).
Proof.
  intros Hvalid.
  by rewrite sorted_set_pick, service_sum_pick, or_mask_mask_of.
Qed.

Section writing_agent.
Context `{ConfigStore St}.
Implicit Types st : St.

Lemma replay_app t1 t2 st : replay (t1 ++ t2) st = replay t2 (replay t1 st).
Proof. apply foldl_app. Qed.

Lemma when_set_value (c : bool) hive key vname vdata vtype st :
  when c (reg_set_value hive key vname vdata vtype) st
    = let t := if c then [SetValue hive key vname vdata vtype] else [] in
      (Ok tt, replay t st, t).
Proof. by destruct c. Qed.

Lemma when_when (a b : bool) (m : prog St unit) :
  when a (when b m) = when (a && b) m.
Proof. by destruct a, b. Qed.

(** The whole run of [set_agent_settings] on valid arguments. *)
Lemma set_agent_settings_run st contact location services current :
  (∀ selection, services = Some selection →
     Forall (λ service, service ∈ get_agent_service_types) selection) →
  get_agent_settings st = (Ok current, st, agent_reads) →
  let writes := agent_writes contact location services current in
  set_agent_settings contact location services st
    = if settings_eq contact location (sorted_set <$> services) current
      then (Ok true, st, agent_reads)
      else
        ( match (get_agent_settings (replay writes st)).1.1 with
          | Ok new_settings =>
              Ok (bool_decide
                    (failed_settings contact location
                       (sorted_set <$> services) new_settings = []))
          | Raise e => Raise e
          end,
          replay writes st, agent_reads ++ writes ++ agent_reads ).
Proof.
  intros Hvalid Hcurrent writes.
  unfold set_agent_settings. unfold bind at 1.
  match goal with
  | |- match ?validation with _ => _ end = _ =>
      assert (validation = (Ok (sorted_set <$> services), st, [])) as ->
  end.
  { destruct services as [selection|]; [|done]. cbn zeta.
    unfold bind. rewrite validate_services_ok; [done|].
    apply Forall_sorted_set. by apply Hvalid. }
  step_with Hcurrent.
  destruct (settings_eq _ _ _ _); [done|].
  rewrite !when_when.
  unfold bind at 1. rewrite when_set_value. cbv beta iota zeta.
  unfold bind at 1. rewrite when_set_value. cbv beta iota zeta.
  set (w1 := if negb (py_eq contact PNone) && _ then _ else _).
  set (w2 := if negb (py_eq location PNone) && _ then _ else _).
  assert (∃ w3,
    (match sorted_set <$> services with
     | Some services =>
         when (negb (same_set services (Settings.services current)))
           (let* vdata := lift (service_sum services) in
            reg_set_value _HKEY _AGENT_KEY (PStr "sysServices")
              (PInt vdata) "REG_DWORD")
     | None => ret tt
     end) (replay w2 (replay w1 st))
    = (Ok tt, replay w3 (replay w2 (replay w1 st)), w3)
    ∧ writes = w1 ++ w2 ++ w3) as (w3 & Hw3 & Hwrites).
  { assert (w1 = if bool_decide (contact ≠ PNone
                                 ∧ contact ≠ Settings.contact current)
                 then [SetValue _HKEY _AGENT_KEY (PStr "sysContact")
                         contact "REG_SZ"] else []) as Hw1.
    { subst w1. unfold py_eq. rewrite <-!bool_decide_not, <-bool_decide_and.
      done. }
    assert (w2 = if bool_decide (location ≠ PNone
                                 ∧ location ≠ Settings.location current)
                 then [SetValue _HKEY _AGENT_KEY (PStr "sysLocation")
                         location "REG_SZ"] else []) as Hw2.
    { subst w2. unfold py_eq. rewrite <-!bool_decide_not, <-bool_decide_and.
      done. }
    subst writes. unfold agent_writes. rewrite <-Hw1, <-Hw2.
    destruct services as [selection|]; cbn [fmap option_fmap option_map].
    - rewrite same_set_spec, list_to_set_sorted_set, <-bool_decide_not.
      eexists. split; [|done].
      destruct (bool_decide (list_to_set selection ≠ _)); [|done].
      cbn [when]. unfold bind, lift.
      by rewrite service_sum_sorted_set by by apply Hvalid.
    - exists []. split; [done|]. done. }
  unfold bind at 1. rewrite Hw3. cbv beta iota zeta.
  rewrite Hwrites, !replay_app.
  unfold bind at 1. rewrite (get_agent_settings_run (replay w3 _)).
  cbn [fst snd]. destruct (decode_services _); cbv beta iota zeta.
  - unfold ret. rewrite <-!app_assoc.
    match goal with
    | |- context [bool_decide (?failed ≠ [])] =>
        destruct (decide (failed = [])) as [Hfailed|Hfailed]
    end.
    + rewrite bool_decide_eq_false_2 by naive_solver.
      by rewrite bool_decide_eq_true_2.
    + rewrite bool_decide_eq_true_2 by done.
      by rewrite bool_decide_eq_false_2.
  - by rewrite <-!app_assoc.
Qed.
End writing_agent.

Lemma mutations_agent_writes contact location services current :
  mutations (agent_writes contact location services current)
    = agent_writes contact location services current.
Proof.
  unfold agent_writes. rewrite !mutations_app.
  destruct services; repeat case_bool_decide; reflexivity.
Qed.

(** Nothing is owed once the re-read shows every requested field. *)
Lemma agent_writes_verified contact location services new_settings :
  failed_settings contact location (sorted_set <$> services) new_settings = [] →
  agent_writes contact location services new_settings = [].
Proof.
  unfold failed_settings, agent_writes, py_eq.
  intros (Hc & (Hl & Hs)%app_eq_nil)%app_eq_nil.
  rewrite (bool_decide_eq_false_2 (contact ≠ _ ∧ _)).
  2:{ intros [??]. by rewrite !bool_decide_eq_false_2 in Hc. }
  rewrite (bool_decide_eq_false_2 (location ≠ _ ∧ _)).
  2:{ intros [??]. by rewrite !bool_decide_eq_false_2 in Hl. }
  destruct services as [selection|]; [|done]. cbn in Hs.
  case_bool_decide as Hsel; [done|].
  rewrite bool_decide_eq_false_2; [done|].
  rewrite <-Hsel, list_to_set_sorted_set. naive_solver.
Qed.

Lemma settings_eq_verified contact location services current :
  settings_eq contact location services current = true →
  failed_settings contact location services current = [].
Proof.
  unfold settings_eq, failed_settings, py_eq.
  intros [[Hc%bool_decide_eq_true Hl%bool_decide_eq_true]%andb_true_iff
            Hs%bool_decide_eq_true]%andb_true_iff.
  rewrite (bool_decide_eq_true_2 (contact = Settings.contact current)) by done.
  rewrite (bool_decide_eq_true_2 (location = Settings.location current))
    by done.
  rewrite !andb_false_r, Hs. cbn.
  by rewrite bool_decide_eq_false_2 by naive_solver.
Qed.

(** C7: on valid arguments and a readable store, the writes of
    [set_agent_settings] are exactly those of [agent_writes], in this order:
    an argument left unset is not written, a provided field is written only
    when it differs from the current value, contact and location as
    [REG_SZ] strings and the services as the [REG_DWORD] or-combination of
    the members' bit values, which is 0 for an empty selection.  The final
    store is the initial one after these writes. *)
Theorem set_agent_settings_writes `{ConfigStore St} (st : St)
    (contact location : pyval) (services : option (list string))
    (current : agent_settings) :
  (∀ selection, services = Some selection →
     Forall (λ service, service ∈ get_agent_service_types) selection) →
  get_agent_settings st = (Ok current, st, agent_reads) →
  let run := set_agent_settings contact location services st in
  mutations run.2 = agent_writes contact location services current
  ∧ run.1.2 = replay (agent_writes contact location services current) st
  ∧ (contact = PNone →
       ∀ vdata vtype,
         SetValue _HKEY _AGENT_KEY (PStr "sysContact") vdata vtype ∉ run.2)
  ∧ (location = PNone →
       ∀ vdata vtype,
         SetValue _HKEY _AGENT_KEY (PStr "sysLocation") vdata vtype ∉ run.2)
  ∧ (services = None →
       ∀ vdata vtype,
         SetValue _HKEY _AGENT_KEY (PStr "sysServices") vdata vtype ∉ run.2)
  ∧ or_mask [] = 0.
Proof.
  intros Hvalid Hcurrent run.
  assert (mutations run.2 = agent_writes contact location services current
          ∧ run.1.2
            = replay (agent_writes contact location services current) st)
    as [Hwrites Hstore].
  { subst run. rewrite (set_agent_settings_run _ _ _ _ current) by done.
    destruct (settings_eq _ _ _ _) eqn:Heq; cbn [fst snd].
    - apply settings_eq_verified, agent_writes_verified in Heq.
      by rewrite Heq.
    - rewrite !mutations_app, mutations_agent_writes. by rewrite app_nil_r. }
  assert (∀ e, e ∈ run.2 → is_mutation e = true →
               e ∈ agent_writes contact location services current)
    as Honly.
  { intros e He Hmut. rewrite <-Hwrites. unfold mutations.
    by apply list_elem_of_filter. }
  split_and!; [done..| | | |done].
  - intros -> vdata vtype Hin%Honly; [|done]. revert Hin.
    unfold agent_writes. rewrite bool_decide_eq_false_2 by naive_solver.
    destruct services; repeat case_bool_decide; set_solver.
  - intros -> vdata vtype Hin%Honly; [|done]. revert Hin.
    unfold agent_writes.
    rewrite (bool_decide_eq_false_2 (PNone ≠ _ ∧ _)) by naive_solver.
    destruct services; repeat case_bool_decide; set_solver.
  - intros -> vdata vtype Hin%Honly; [|done]. revert Hin.
    unfold agent_writes. repeat case_bool_decide; set_solver.
Qed.

(** C6: [set_agent_settings] is idempotent: after a call that returned
    [True], the same call returns [True] again, leaves the store as it is
    and issues no write. *)
Theorem set_agent_settings_idempotent `{ConfigStore St} (st st1 : St)
    (contact location : pyval) (services : option (list string))
    (t1 : list event) :
  set_agent_settings contact location services st = (Ok true, st1, t1) →
  ∃ t2,
    set_agent_settings contact location services st1 = (Ok true, st1, t2)
    ∧ mutations t2 = [].
Proof.
  intros Hfirst.
  assert (∀ selection, services = Some selection →
            Forall (λ service, service ∈ get_agent_service_types) selection)
    as Hvalid.
  { intros selection ->.
    destruct (decide (Forall (λ service, service ∈ get_agent_service_types)
                        selection)) as [|Hbad]; [done|].
    destruct (set_agent_settings_invalid st contact location selection Hbad)
      as (? & _ & _ & Hraise).
    congruence. }
  pose proof (get_agent_settings_run st) as Hget.
  destruct (decode_services (read_value st _HKEY _AGENT_KEY (PStr "sysServices")))
    as [current_services|e] eqn:Hdecode.
  2:{ revert Hfirst. unfold set_agent_settings. unfold bind at 1.
      destruct services as [selection|].
      - unfold bind at 1.
        rewrite validate_services_ok
          by by apply Forall_sorted_set, Hvalid.
        unfold ret at 1. cbv beta iota zeta. by step_with Hget.
      - unfold ret at 1. cbv beta iota zeta. by step_with Hget. }
  rewrite (set_agent_settings_run _ _ _ _ _ Hvalid Hget) in Hfirst.
  destruct (settings_eq _ _ _ _) eqn:Heq.
  - injection Hfirst as <- <-. exists agent_reads. split; [|done].
    rewrite (set_agent_settings_run _ _ _ _ _ Hvalid Hget). by rewrite Heq.
  - injection Hfirst as Hverified <- <-.
    set (st1 := replay _ st) in *.
    pose proof (get_agent_settings_run st1) as Hget1.
    destruct (decode_services
                (read_value st1 _HKEY _AGENT_KEY (PStr "sysServices")))
      as [new_services|e] eqn:Hdecode1;
      rewrite Hget1 in Hverified; cbn [fst] in Hverified; [|done].
    injection Hverified as Hverified%bool_decide_eq_true.
    rewrite (set_agent_settings_run _ _ _ _ _ Hvalid Hget1).
    rewrite (agent_writes_verified _ _ _ _ Hverified).
    change (replay [] st1) with st1. rewrite Hget1. cbn [fst].
    rewrite bool_decide_eq_true_2 by done.
    match goal with
    | |- context [if ?short_circuit then _ else _] => destruct short_circuit
    end; eexists; (split; [reflexivity|done]).
Qed.

Lemma set_agent_settings_writes_witness :
  let run :=
    set_agent_settings (PStr "noc") PNone (Some ["Physical"]) sample_agent in
  mutations run.2
    = agent_writes (PStr "noc") PNone (Some ["Physical"]) sample_agent_settings
  ∧ run.1.2
    = replay
        (agent_writes (PStr "noc") PNone (Some ["Physical"])
           sample_agent_settings) sample_agent
  ∧ (PStr "noc" = PNone →
       ∀ vdata vtype,
         SetValue _HKEY _AGENT_KEY (PStr "sysContact") vdata vtype ∉ run.2)
  ∧ (PNone = PNone →
       ∀ vdata vtype,
         SetValue _HKEY _AGENT_KEY (PStr "sysLocation") vdata vtype ∉ run.2)
  ∧ (Some ["Physical"] = None →
       ∀ vdata vtype,
         SetValue _HKEY _AGENT_KEY (PStr "sysServices") vdata vtype ∉ run.2)
  ∧ or_mask [] = 0.
Proof.
  apply (set_agent_settings_writes sample_agent (PStr "noc") PNone
           (Some ["Physical"]) sample_agent_settings).
  - intros selection [= <-]. repeat constructor.
  - reflexivity.
Defined.

Lemma set_agent_settings_idempotent_witness :
  let first :=
    set_agent_settings (PStr "noc") PNone (Some ["Physical"]) sample_agent in
  ∃ t2,
    set_agent_settings (PStr "noc") PNone (Some ["Physical"]) first.1.2
      = (Ok true, first.1.2, t2)
    ∧ mutations t2 = [].
Proof.
  intros first.
  apply (set_agent_settings_idempotent sample_agent first.1.2 (PStr "noc")
           PNone (Some ["Physical"]) first.2).
  reflexivity.
Defined.

(** The limit of idempotence: a call that returned [False] may write again.
    With an empty list of services both calls store the bitmask 0. *)
Lemma set_agent_settings_repeats_after_failure :
  let first := set_agent_settings PNone PNone (Some []) sample_agent in
  let second := set_agent_settings PNone PNone (Some []) first.1.2 in
  first.1.1 = Ok false
  ∧ second.1.1 = Ok false
  ∧ mutations second.2
    = [SetValue _HKEY _AGENT_KEY (PStr "sysServices") (PInt 0) "REG_DWORD"].
Proof. by vm_compute. Qed.

(** ** An empty selection of services *)

Lemma services_loop_grows sorted_types current services :
  services ≠ [] →
  ∃ accepted,
    services_loop sorted_types (PInt current) services = Ok accepted
    ∧ accepted ≠ [].
Proof.
  revert current services.
  induction sorted_types as [|[service bitmask] sorted_types IH];
    intros current services Hservices; cbn [services_loop]; [eauto|].
  destruct (0 <? current); [|eauto].
  destruct (0 <=? current - bitmask); [|eauto].
  apply IH. by destruct services.
Qed.

Lemma services_loop_positive sorted_types current services :
  0 < current → ("Physical", 1) ∈ sorted_types →
  ∃ accepted,
    services_loop sorted_types (PInt current) services = Ok accepted
    ∧ accepted ≠ [].
Proof.
  intros Hpos. revert services.
  induction sorted_types as [|[service bitmask] sorted_types IH];
    intros services Hin; cbn [services_loop].
  { by apply elem_of_nil in Hin. }
  rewrite (proj2 (Z.ltb_lt 0 current)) by done.
  destruct (0 <=? current - bitmask) eqn:Hfits.
  - apply services_loop_grows. by destruct services.
  - apply IH. apply elem_of_cons in Hin as [[= <- <-]|Hin]; [|done].
    apply Z.leb_gt in Hfits. lia.
Qed.

(** A stored bitmask that is a non-negative integer never decodes to the
    empty list. *)
Lemma decode_services_nonneg z :
  0 ≤ z → ∃ services, decode_services (PInt z) = Ok services ∧ services ≠ [].
Proof.
  intros Hz. destruct (decide (z = 0)) as [->|Hne].
  { by exists ["None"]. }
  unfold decode_services, py_eq.
  rewrite (bool_decide_eq_false_2 (PInt z = PInt 0)) by congruence.
  destruct (services_loop_positive
              (merge_sort service_key_le _SERVICE_TYPES) z [])
    as (accepted & -> & Haccepted); [lia|vm_compute; set_solver|].
  eexists. split; [done|]. by intros ?%sorted_nil_inv.
Qed.

(** C10 (as amended): on a store whose settings can be read, whose current
    list of services is not empty, and where a written [sysServices] value
    reads back, [set_agent_settings] with an empty list of services returns
    [False]: it stores the bitmask 0, which the re-read decodes as
    ["None"], so that the comparison with the requested empty list
    fails. *)
Theorem set_agent_settings_empty_services `{ConfigStore St} (st : St)
    (contact location : pyval) (current : agent_settings) :
  get_agent_settings st = (Ok current, st, agent_reads) →
  Settings.services current ≠ [] →
  (∀ st0 vdata,
     read_value
       (set_value st0 _HKEY _AGENT_KEY (PStr "sysServices") vdata "REG_DWORD")
       _HKEY _AGENT_KEY (PStr "sysServices") = vdata) →
  ∃ st' t new_settings,
    set_agent_settings contact location (Some []) st = (Ok false, st', t)
    ∧ SetValue _HKEY _AGENT_KEY (PStr "sysServices") (PInt 0) "REG_DWORD" ∈ t
    ∧ read_value st' _HKEY _AGENT_KEY (PStr "sysServices") = PInt 0
    ∧ get_agent_settings st' = (Ok new_settings, st', agent_reads)
    ∧ Settings.services new_settings = ["None"].
Proof.
  intros Hget Hsome Hlaw.
  assert (∀ selection, Some [] = Some selection →
            Forall (λ service, service ∈ get_agent_service_types) selection)
    as Hvalid by (by intros ? [= <-]).
  rewrite (set_agent_settings_run _ _ _ _ _ Hvalid Hget).
  assert (settings_eq contact location (sorted_set <$> Some []) current
          = false) as ->.
  { unfold settings_eq.
    rewrite (bool_decide_eq_false_2 (_ = Some (Settings.services current))).
    - by rewrite andb_false_r.
    - intros [= Heq]. apply Hsome. by rewrite <-Heq. }
  assert (∃ w,
    agent_writes contact location (Some []) current
    = w ++ [SetValue _HKEY _AGENT_KEY (PStr "sysServices") (PInt 0)
              "REG_DWORD"]) as [w ->].
  { unfold agent_writes.
    rewrite (bool_decide_eq_true_2 (list_to_set [] ≠ _)).
    - rewrite app_assoc. eauto.
    - destruct (Settings.services current) as [|s ?]; [done|]. set_solver. }
  rewrite replay_app. cbn [replay foldl].
  set (st' := set_value _ _ _ _ _ _).
  assert (read_value st' _HKEY _AGENT_KEY (PStr "sysServices") = PInt 0)
    as Hzero by apply Hlaw.
  pose proof (get_agent_settings_run st') as Hget'.
  rewrite Hzero in Hget'.
  change (decode_services (PInt 0)) with (Ok (A:=list string) ["None"])
    in Hget'.
  cbv beta iota in Hget'. rewrite Hget'. cbn [fst snd].
  rewrite (bool_decide_eq_false_2 (failed_settings _ _ _ _ = [])).
  2:{ unfold failed_settings.
      cbn [fmap option_fmap option_map Settings.services].
      change (sorted_set []) with (@nil string).
      rewrite (bool_decide_eq_true_2 ([] ≠ ["None"])) by done.
      intros (_ & (_ & [=])%app_eq_nil)%app_eq_nil. }
  eexists _, _, _. split; [reflexivity|].
  split_and!; [|done|exact Hget'|done].
  rewrite !elem_of_app, list_elem_of_singleton. auto.
Qed.

(** ** The registry *)

Lemma registry_read_set (r : registry) hive key vname vdata vtype :
  read_value (set_value r hive key vname vdata vtype) hive key vname = vdata.
Proof.
  cbn. rewrite decide_True by done. cbn. by rewrite lookup_insert_eq.
Qed.

Lemma registry_key_exists_set (r : registry) hive key vname vdata vtype
    hive' key' :
  (hive', key') ≠ (hive, key) →
  key_exists (set_value r hive key vname vdata vtype) hive' key'
    = key_exists r hive' key'.
Proof. intros Hne. cbn. rewrite decide_False; [done|]. naive_solver. Qed.

Lemma registry_key_exists_delete (r : registry) hive key vname hive' key' :
  (hive', key') ≠ (hive, key) →
  key_exists (delete_value r hive key vname) hive' key'
    = key_exists r hive' key'.
Proof. intros Hne. cbn. rewrite decide_False; [done|]. naive_solver. Qed.

Lemma local_table_set (r : registry) vname vdata vtype :
  local_table (set_value r _HKEY _COMMUNITIES_KEY vname vdata vtype)
    = <[vname := vdata]> (local_table r).
Proof. unfold local_table. cbn. by rewrite decide_True. Qed.

Lemma local_table_delete (r : registry) vname :
  local_table (delete_value r _HKEY _COMMUNITIES_KEY vname)
    = delete vname (local_table r).
Proof.
  unfold local_table. cbn. rewrite decide_True by done.
  destruct (reg_values r _HKEY _COMMUNITIES_KEY); cbn; [done|].
  by rewrite delete_empty.
Qed.

Lemma set_agent_settings_empty_services_witness :
  ∃ st' t new_settings,
    set_agent_settings PNone PNone (Some []) sample_agent = (Ok false, st', t)
    ∧ SetValue _HKEY _AGENT_KEY (PStr "sysServices") (PInt 0) "REG_DWORD" ∈ t
    ∧ read_value st' _HKEY _AGENT_KEY (PStr "sysServices") = PInt 0
    ∧ get_agent_settings st' = (Ok new_settings, st', agent_reads)
    ∧ Settings.services new_settings = ["None"].
Proof.
  apply (set_agent_settings_empty_services sample_agent PNone PNone
           sample_agent_settings).
  - reflexivity.
  - done.
  - intros st0 vdata. apply registry_read_set.
Defined.

(** C10, as the code behaves when no service is set: on a registry whose
    agent key holds no [sysServices] value the current list of services is
    empty already; a call with an empty list then returns [True], without
    a write when nothing else is requested, and after the write of the
    contact alone when a contact is. *)
Lemma set_agent_settings_empty_services_unset :
  let run := set_agent_settings PNone PNone (Some []) empty_registry in
  let run' := set_agent_settings (PStr "noc") PNone (Some []) empty_registry in
  read_value empty_registry _HKEY _AGENT_KEY (PStr "sysServices") = PNone
  ∧ (get_agent_settings empty_registry).1.1
    = Ok {| Settings.contact := PNone; Settings.location := PNone;
            Settings.services := [] |}
  ∧ run.1.1 = Ok true
  ∧ mutations run.2 = []
  ∧ run'.1.1 = Ok true
  ∧ mutations run'.2
    = [SetValue _HKEY _AGENT_KEY (PStr "sysContact") (PStr "noc") "REG_SZ"].
Proof. by vm_compute. Qed.

(** C3, as the code behaves: with the local communities [a] (Read Only) and
    [b] (Notify), requesting [a] as Read Only alone writes [a] again with
    the value it already has, before deleting [b].  The loop compares the
    current permission name with the requested integer, and these never
    agree. *)
Lemma set_community_names_rewrites_equal_permission :
  let run :=
    set_community_names [(PStr "a", PStr "Read Only")] sample_communities in
  (get_community_names sample_communities).1.1
    = Ok [(PStr "a", PStr "Read Only"); (PStr "b", PStr "Notify")]
  ∧ run.1.1 = Ok true
  ∧ mutations run.2
    = [ SetValue _HKEY _COMMUNITIES_KEY (PStr "a") (PInt 4) "REG_DWORD";
        DeleteValue _HKEY _COMMUNITIES_KEY (PStr "b") ].
Proof. by vm_compute. Qed.

(** ** Reconciling the community names *)

(** *** Permissions and their values *)

Lemma permission_value_cases permission vdata :
  permission_value permission = Some vdata →
  (permission, vdata) ∈
    [ (PStr "None", 1); (PStr "Notify", 2); (PStr "Read Only", 4);
      (PStr "Read Write", 8); (PStr "Read Create", 16) ].
Proof.
  destruct permission as [| |permission_name]; [done..|].
  unfold permission_value, _PERMISSION_TYPES. cbn [dict_get].
  repeat (case_decide; [intros [= <-]; subst; set_solver|]). done.
Qed.

Lemma permission_value_truthy permission vdata :
  permission_value permission = Some vdata → py_truthy permission = true.
Proof.
  intros Hcases%permission_value_cases. revert Hcases.
  rewrite !elem_of_cons, elem_of_nil. intros ?; destruct_or!; by simplify_eq.
Qed.

Lemma permission_of_value permission vdata :
  permission_value permission = Some vdata →
  PStr (permission_of _PERMISSION_TYPES (PInt vdata)) = permission.
Proof.
  intros Hcases%permission_value_cases. revert Hcases.
  rewrite !elem_of_cons, elem_of_nil. intros ?; destruct_or!; by simplify_eq.
Qed.

Lemma permission_of_inv stored_data vdata :
  permission_value (PStr (permission_of _PERMISSION_TYPES stored_data))
    = Some vdata →
  stored_data = PInt vdata.
Proof.
  unfold _PERMISSION_TYPES at 1. cbn [permission_of]. unfold py_eq.
  repeat (case_bool_decide; [by intros [= <-]|]). done.
Qed.

(** On valid permissions the validation loop changes nothing in the request
    and collects the integer of every permission. *)
Lemma normalize_valid vnames (communities values : pydict) :
  vnames ⊆ dict_keys communities →
  (∀ vname permission,
     dict_get communities vname = Some permission →
     is_Some (permission_value permission)) →
  ∃ values',
    normalize vnames communities values = Ok (communities, values')
    ∧ ∀ vname,
        dict_get values' vname
          = if decide (vname ∈ vnames) then requested_value communities vname
            else dict_get values vname.
Proof.
  intros Hkeys Hvalid. revert values Hkeys.
  induction vnames as [|vname vnames IH]; intros values Hkeys.
  { exists values. split; [done|]. intros k. rewrite decide_False; [done|].
    apply not_elem_of_nil. }
  assert (vname ∈ dict_keys communities) as Hvname by (apply Hkeys; left).
  apply dict_get_is_Some in Hvname as [permission Hpermission].
  destruct (Hvalid _ _ Hpermission) as [vdata Hvdata].
  cbn [normalize]. unfold dict_item. rewrite Hpermission.
  rewrite (permission_value_truthy _ _ Hvdata). cbn [negb].
  rewrite Hpermission, Hvdata.
  destruct (IH (dict_set values vname (PInt vdata))) as (values' & -> & Hget).
  { intros k Hk. apply Hkeys. by right. }
  exists values'. split; [done|]. intros k. rewrite Hget.
  destruct (decide (k ∈ vnames)).
  - rewrite decide_True; [done|by right].
  - rewrite dict_get_set. destruct (decide (vname = k)) as [->|].
    + rewrite decide_True by left. unfold requested_value.
      by rewrite Hpermission; cbn; rewrite Hvdata.
    + rewrite decide_False; [done|]. rewrite not_elem_of_cons. naive_solver.
Qed.

(** *** The two loops, on any store *)

Section reconcile_loops.
Context `{ConfigStore St}.
Implicit Types st : St.

Lemma reconcile_current_step k (current_communities values : pydict) st :
  (∃ s, dict_get current_communities k = Some (PStr s)) →
  (∀ v, dict_get values k = Some v → ∃ n, v = PInt n) →
  (if dict_mem k values then
     let* current := lift (dict_item current_communities k) in
     let* requested := lift (dict_item values k) in
     when (negb (py_eq current requested))
       (reg_set_value _HKEY _COMMUNITIES_KEY k requested "REG_DWORD")
   else reg_delete_value _HKEY _COMMUNITIES_KEY k) st
  = (Ok tt, replay (reconcile_current values k) st,
     reconcile_current values k).
Proof.
  intros [s Hs] Hvalues. unfold reconcile_current.
  destruct (dict_get values k) as [v|] eqn:Hv.
  - destruct (Hvalues _ eq_refl) as [n ->].
    rewrite (proj2 (dict_mem_spec k values))
      by (apply dict_get_is_Some; eauto).
    unfold bind, lift, dict_item. by rewrite Hs, Hv.
  - assert (dict_mem k values = false) as ->; [|done].
    apply not_true_is_false. rewrite dict_mem_spec. by apply dict_get_None.
Qed.

Lemma reconcile_current_run ks (current_communities values : pydict) st :
  (∀ k, k ∈ ks → ∃ s, dict_get current_communities k = Some (PStr s)) →
  (∀ k v, dict_get values k = Some v → ∃ n, v = PInt n) →
  for_each ks (λ current_vname,
    if dict_mem current_vname values then
      let* current := lift (dict_item current_communities current_vname) in
      let* requested := lift (dict_item values current_vname) in
      when (negb (py_eq current requested))
        (reg_set_value _HKEY _COMMUNITIES_KEY current_vname requested
           "REG_DWORD")
    else reg_delete_value _HKEY _COMMUNITIES_KEY current_vname) st
  = (Ok tt, replay (ks ≫= reconcile_current values) st,
     ks ≫= reconcile_current values).
Proof.
  intros Hcurrent Hvalues. revert st Hcurrent.
  induction ks as [|k ks IH]; intros st Hcurrent; [done|].
  cbn [for_each]. rewrite bind_cons, replay_app.
  step_with (reconcile_current_step k current_communities values st
               (Hcurrent k (list_elem_of_here _ _)) (Hvalues k)).
  rewrite IH by (intros; apply Hcurrent; by right). done.
Qed.

Lemma reconcile_new_step k (current_communities values : pydict) st :
  k ∈ dict_keys values →
  when (negb (dict_mem k current_communities))
    (let* requested := lift (dict_item values k) in
     reg_set_value _HKEY _COMMUNITIES_KEY k requested "REG_DWORD") st
  = (Ok tt, replay (reconcile_new current_communities values k) st,
     reconcile_new current_communities values k).
Proof.
  intros [v Hv]%dict_get_is_Some. unfold reconcile_new. rewrite Hv.
  destruct (dict_mem k current_communities); cbn [negb when]; [done|].
  unfold bind, lift, dict_item. by rewrite Hv.
Qed.

Lemma reconcile_new_run ks (current_communities values : pydict) st :
  ks ⊆ dict_keys values →
  for_each ks (λ vname,
    when (negb (dict_mem vname current_communities))
      (let* requested := lift (dict_item values vname) in
       reg_set_value _HKEY _COMMUNITIES_KEY vname requested "REG_DWORD")) st
  = (Ok tt, replay (ks ≫= reconcile_new current_communities values) st,
     ks ≫= reconcile_new current_communities values).
Proof.
  revert st. induction ks as [|k ks IH]; intros st Hkeys; [done|].
  cbn [for_each]. rewrite bind_cons, replay_app.
  step_with (reconcile_new_step k current_communities values st
               (Hkeys k (list_elem_of_here _ _))).
  rewrite IH by (intros ??; apply Hkeys; by right). done.
Qed.
End reconcile_loops.

(** *** Equality and verification of dictionaries *)

Lemma dict_eq_spec (a b : pydict) :
  NoDup (dict_keys a) → NoDup (dict_keys b) → dict_eq a b = true →
  ∀ k, dict_get a k = dict_get b k.
Proof.
  intros Ha Hb [Hlen%bool_decide_eq_true Hall]%andb_true_iff k.
  rewrite forallb_forall in Hall.
  assert (∀ k v, dict_get a k = Some v → dict_get b k = Some v) as Hsub.
  { intros k' v' Hin%dict_get_Some_elem%list_elem_of_In.
    by apply Hall, bool_decide_eq_true in Hin. }
  destruct (dict_get a k) as [v|] eqn:Hk; [by symmetry; apply Hsub|].
  symmetry. apply dict_get_None. apply dict_get_None in Hk.
  assert (dict_keys a ≡ₚ dict_keys b) as Hperm; [|by rewrite <-Hperm].
  apply submseteq_length_Permutation.
  - apply NoDup_submseteq; [done|]. intros k' [v' Hv']%dict_get_is_Some.
    apply dict_get_is_Some. eauto.
  - unfold dict_keys. rewrite !length_fmap. lia.
Qed.

Lemma NoDup_foldl_set (f : pyval → pyval) (table d : pydict) :
  NoDup (dict_keys d) →
  NoDup (dict_keys (foldl (λ d entry, dict_set d entry.1 (f entry.2)) d table)).
Proof.
  revert d. induction table as [|[k v] table IH]; intros d Hd; [done|].
  cbn [foldl]. by apply IH, NoDup_dict_keys_set.
Qed.

Lemma NoDup_local_communities items :
  NoDup (dict_keys (local_communities [] items)).
Proof.
  rewrite local_communities_entries.
  apply (NoDup_foldl_set (λ vdata, PStr (permission_of _PERMISSION_TYPES vdata))).
  constructor.
Qed.

Lemma failed_unrequested_nil (communities new_communities : pydict) :
  (∀ k, k ∈ dict_keys new_communities → k ∈ dict_keys communities) →
  failed_unrequested communities new_communities = [].
Proof.
  unfold failed_unrequested.
  induction (dict_keys new_communities) as [|k ks IH]; intros Hkeys; [done|].
  cbn [foldl]. rewrite (proj2 (dict_mem_spec k communities)) by (apply Hkeys; left).
  cbn [negb]. apply IH. intros; apply Hkeys; by right.
Qed.

Lemma failed_requested_nil vnames (communities new_communities : pydict) :
  (∀ k, k ∈ vnames →
     ∃ v, dict_get communities k = Some v ∧ dict_get new_communities k = Some v) →
  failed_requested vnames communities new_communities [] = Ok [].
Proof.
  induction vnames as [|k ks IH]; intros Hsame; [done|].
  cbn [failed_requested]. destruct (Hsame k) as (v & Hv & Hv'); [left|].
  unfold dict_item. rewrite Hv, Hv'. unfold py_eq.
  rewrite bool_decide_eq_true_2 by done. cbn [negb].
  apply IH. intros; apply Hsame; by right.
Qed.

(** *** The loops on the registry *)

Lemma local_table_reconcile_current (r : registry) (values : pydict) ks k :
  local_table (replay (ks ≫= reconcile_current values) r) !! k
    = if decide (k ∈ ks) then dict_get values k else local_table r !! k.
Proof.
  revert r. induction ks as [|k0 ks IH]; intros r.
  { rewrite decide_False; [done|apply not_elem_of_nil]. }
  rewrite bind_cons, replay_app, IH.
  destruct (decide (k ∈ ks)); [by rewrite decide_True by by right|].
  unfold reconcile_current. destruct (decide (k = k0)) as [->|Hne].
  - rewrite decide_True by left.
    destruct (dict_get values k0); cbn [replay foldl].
    + by rewrite local_table_set, lookup_insert_eq.
    + by rewrite local_table_delete, lookup_delete_eq.
  - rewrite decide_False by (rewrite not_elem_of_cons; naive_solver).
    destruct (dict_get values k0); cbn [replay foldl].
    + by rewrite local_table_set, lookup_insert_ne.
    + by rewrite local_table_delete, lookup_delete_ne.
Qed.

Lemma local_table_reconcile_new (r : registry)
    (current_communities values : pydict) ks k :
  ks ⊆ dict_keys values →
  local_table (replay (ks ≫= reconcile_new current_communities values) r) !! k
    = if decide (k ∈ ks ∧ k ∉ dict_keys current_communities)
      then dict_get values k else local_table r !! k.
Proof.
  revert r. induction ks as [|k0 ks IH]; intros r Hkeys.
  { rewrite decide_False; [done|]. intros [[]%elem_of_nil _]. }
  rewrite bind_cons, replay_app, IH by (intros ??; apply Hkeys; by right).
  assert (k0 ∈ dict_keys values) as [v0 Hv0]%dict_get_is_Some
    by (apply Hkeys; left).
  assert (local_table (replay (reconcile_new current_communities values k0) r)
            !! k
          = if decide (k = k0 ∧ k0 ∉ dict_keys current_communities)
            then dict_get values k0 else local_table r !! k) as ->.
  { unfold reconcile_new. destruct (dict_mem k0 current_communities) eqn:Hmem.
    - apply dict_mem_spec in Hmem. by rewrite decide_False by naive_solver.
    - apply not_true_iff_false in Hmem. rewrite dict_mem_spec in Hmem.
      rewrite Hv0. cbn [replay foldl]. rewrite local_table_set.
      destruct (decide (k = k0)) as [->|].
      + rewrite decide_True by done. by rewrite lookup_insert_eq.
      + rewrite decide_False by naive_solver. by rewrite lookup_insert_ne. }
  repeat case_decide; try done; destruct_and?; subst; try done;
    exfalso; set_solver.
Qed.

Lemma gpo_key_reconcile_current (r : registry) (values : pydict) ks :
  key_exists (replay (ks ≫= reconcile_current values) r)
      _HKEY _COMMUNITIES_GPO_KEY
    = key_exists r _HKEY _COMMUNITIES_GPO_KEY.
Proof.
  revert r. induction ks as [|k0 ks IH]; intros r; [done|].
  rewrite bind_cons, replay_app, IH. unfold reconcile_current.
  destruct (dict_get values k0); cbn [replay foldl].
  - by apply registry_key_exists_set.
  - by apply registry_key_exists_delete.
Qed.

Lemma gpo_key_reconcile_new (r : registry)
    (current_communities values : pydict) ks :
  key_exists (replay (ks ≫= reconcile_new current_communities values) r)
      _HKEY _COMMUNITIES_GPO_KEY
    = key_exists r _HKEY _COMMUNITIES_GPO_KEY.
Proof.
  revert r. induction ks as [|k0 ks IH]; intros r; [done|].
  rewrite bind_cons, replay_app, IH. unfold reconcile_new.
  destruct (dict_mem k0 current_communities); [done|].
  destruct (dict_get values k0); cbn [replay foldl]; [|done].
  by apply registry_key_exists_set.
Qed.

(** *** Reading the registry *)

Lemma entries_of_table (table : list (pyval * pyval)) :
  entries ((λ kv, ItemDict kv.1 kv.2) <$> table) = table.
Proof.
  induction table as [|[k v] table IH]; [done|].
  unfold entries in *. cbn. by rewrite IH.
Qed.

Lemma stored_map_to_list (m : gmap pyval pyval) k :
  stored (map_to_list m) k = m !! k.
Proof.
  destruct (stored (map_to_list m) k) as [v|] eqn:Hstored.
  - apply stored_Some_elem in Hstored. symmetry.
    by apply elem_of_map_to_list.
  - apply stored_None in Hstored. symmetry. apply eq_None_not_Some.
    intros [v Hv]. apply Hstored.
    apply elem_of_map_to_list in Hv. by apply (list_elem_of_fmap_2 fst) in Hv.
Qed.

(** Without a Group Policy key, a registry reports every value of its local
    key, with the name of the stored permission. *)
Lemma registry_get_community_names (r : registry) :
  key_exists r _HKEY _COMMUNITIES_GPO_KEY = false →
  ∃ names,
    get_community_names r = (Ok names, r, local_reads false)
    ∧ NoDup (dict_keys names)
    ∧ ∀ vname,
        dict_get names vname
          = (λ vdata, PStr (permission_of _PERMISSION_TYPES vdata))
              <$> local_table r !! vname.
Proof.
  intros Hgpo. eexists. split_and!.
  - by apply get_community_names_local.
  - apply NoDup_local_communities.
  - intros vname. rewrite dict_get_local_communities. f_equal.
    unfold local_table. cbn [list_values registry_store].
    destruct (reg_values r _HKEY _COMMUNITIES_KEY) as [m|]; cbn [listed default].
    + by rewrite entries_of_table, stored_map_to_list.
    + by rewrite lookup_empty.
Qed.

(** *** The whole reconciliation *)

(** On a registry without a Group Policy key and for valid permissions,
    [set_community_names] succeeds and leaves exactly the requested table. *)
Lemma set_community_names_registry (r : registry) (communities : pydict) :
  key_exists r _HKEY _COMMUNITIES_GPO_KEY = false →
  NoDup (dict_keys communities) →
  (∀ vname permission,
     dict_get communities vname = Some permission →
     is_Some (permission_value permission)) →
  ∃ r' t,
    set_community_names communities r = (Ok true, r', t)
    ∧ key_exists r' _HKEY _COMMUNITIES_GPO_KEY = false
    ∧ (∀ vname, local_table r' !! vname = requested_value communities vname)
    ∧ (∀ vname,
         is_Some (local_table r !! vname) →
         dict_get communities vname = None →
         DeleteValue _HKEY _COMMUNITIES_KEY vname ∈ t)
    ∧ (∀ vname vdata,
         local_table r !! vname = None →
         requested_value communities vname = Some vdata →
         SetValue _HKEY _COMMUNITIES_KEY vname vdata "REG_DWORD" ∈ t).
Proof.
  intros Hgpo Hnodup Hvalid.
  destruct (registry_get_community_names r Hgpo)
    as (current & Hcurrent & Hcurrent_nodup & Hcurrent_get).
  unfold set_community_names. step_call. rewrite Hgpo. step_with Hcurrent.
  destruct (dict_eq communities current) eqn:Heq.
  - pose proof (dict_eq_spec _ _ Hnodup Hcurrent_nodup Heq) as Hsame.
    exists r. eexists. split_and!; [reflexivity|done|..].
    + intros vname. unfold requested_value.
      specialize (Hsame vname). rewrite Hcurrent_get in Hsame.
      destruct (local_table r !! vname) as [stored_data|]; rewrite Hsame; [|done].
      cbn [fmap option_fmap option_map mbind option_bind].
      destruct (Hvalid vname _ Hsame) as [vdata Hvdata].
      rewrite Hvdata. cbn [fmap option_fmap option_map mbind option_bind].
      by apply permission_of_inv in Hvdata as ->.
    + intros vname [stored_data Hstored] Hnone.
      specialize (Hsame vname). rewrite Hcurrent_get, Hstored, Hnone in Hsame.
      done.
    + intros vname vdata Hnone. unfold requested_value.
      specialize (Hsame vname). rewrite Hcurrent_get, Hnone in Hsame.
      by rewrite Hsame.
  - destruct (normalize_valid (dict_keys communities) communities [])
      as (values & Hnormalize & Hvalues); [done..|].
    assert (∀ vname, dict_get values vname = requested_value communities vname)
      as Hrequested.
    { intros vname. rewrite Hvalues. case_decide as Hin; [done|].
      apply dict_get_None in Hin. unfold requested_value. by rewrite Hin. }
    unfold bind at 1, lift at 1. rewrite Hnormalize. cbv beta iota zeta.
    cbn [fst snd].
    unfold bind at 1. rewrite reconcile_current_run; cycle 1.
    { intros k [v Hv]%dict_get_is_Some. rewrite Hcurrent_get in Hv.
      destruct (local_table r !! k) eqn:Hk; [|done].
      rewrite Hcurrent_get, Hk. eauto. }
    { intros k v. rewrite Hrequested. unfold requested_value.
      destruct (dict_get communities k ≫= permission_value); [|done].
      intros [= <-]. eauto. }
    cbv beta iota zeta.
    unfold bind at 1. rewrite reconcile_new_run by done. cbv beta iota zeta.
    set (t1 := dict_keys current ≫= reconcile_current values).
    set (t2 := dict_keys values ≫= reconcile_new current values).
    set (r' := replay t2 (replay t1 r)).
    assert (key_exists r' _HKEY _COMMUNITIES_GPO_KEY = false) as Hgpo'.
    { subst r' t1 t2.
      by rewrite gpo_key_reconcile_new, gpo_key_reconcile_current. }
    assert (∀ vname, local_table r' !! vname
                     = requested_value communities vname) as Htable.
    { intros vname. subst r' t1 t2.
      rewrite local_table_reconcile_new, local_table_reconcile_current by done.
      rewrite <-Hrequested.
      destruct (decide (vname ∈ dict_keys current)) as [Hin|Hin].
      - by rewrite decide_False by naive_solver.
      - case_decide as Hnew; [done|].
        pose proof Hin as Hstored. apply dict_get_None in Hstored.
        rewrite Hcurrent_get in Hstored.
        destruct (local_table r !! vname); [done|].
        symmetry. apply dict_get_None. naive_solver. }
    destruct (registry_get_community_names r' Hgpo')
      as (new & Hnew & Hnew_nodup & Hnew_get).
    step_with Hnew.
    assert (∀ k v, dict_get communities k = Some v → dict_get new k = Some v)
      as Hnew_same.
    { intros k v Hv. rewrite Hnew_get, Htable. unfold requested_value.
      rewrite Hv. cbn [fmap option_fmap option_map mbind option_bind].
      destruct (Hvalid k v Hv) as [vdata Hvdata].
      rewrite Hvdata. cbn [fmap option_fmap option_map mbind option_bind].
      by rewrite (permission_of_value v). }
    rewrite failed_unrequested_nil; cycle 1.
    { intros k [v Hv]%dict_get_is_Some. rewrite Hnew_get, Htable in Hv.
      unfold requested_value in Hv. apply dict_get_is_Some.
      by destruct (dict_get communities k). }
    unfold bind at 1, lift at 1. rewrite failed_requested_nil; cycle 1.
    { intros k [v Hv]%dict_get_is_Some. eauto. }
    cbv beta iota zeta. rewrite bool_decide_eq_false_2 by naive_solver.
    exists r'. eexists. split_and!; [reflexivity|done..| |].
    + intros vname [stored_data Hstored] Hnone.
      assert (DeleteValue _HKEY _COMMUNITIES_KEY vname ∈ t1) as Hin;
        [|rewrite !elem_of_app; auto 10].
      subst t1. apply list_elem_of_bind. exists vname. split.
      * unfold reconcile_current. rewrite Hrequested. unfold requested_value.
        rewrite Hnone. left.
      * apply dict_get_is_Some. rewrite Hcurrent_get, Hstored. eauto.
    + intros vname vdata Hnone Hvdata.
      assert (SetValue _HKEY _COMMUNITIES_KEY vname vdata "REG_DWORD" ∈ t2)
        as Hin; [|rewrite !elem_of_app; auto 10].
      subst t2. apply list_elem_of_bind. exists vname. split.
      * unfold reconcile_new. rewrite Hrequested, Hvdata.
        assert (dict_mem vname current = false) as ->; [|left].
        apply not_true_iff_false. rewrite dict_mem_spec.
        apply dict_get_None. by rewrite Hcurrent_get, Hnone.
      * apply dict_get_is_Some. rewrite Hrequested, Hvdata. eauto.
Qed.

(** On any store without a Group Policy key, whatever its writes do: the
    delete of every current community that is not requested and the write
    of every requested community that is not a current one are issued; and
    unless the request equals the current table, so is the write of every
    requested community that is a current one, whatever its permission. *)
Lemma set_community_names_calls `{ConfigStore St} (st : St)
    (communities : pydict) :
  key_exists st _HKEY _COMMUNITIES_GPO_KEY = false →
  NoDup (dict_keys communities) →
  (∀ vname permission,
     dict_get communities vname = Some permission →
     is_Some (permission_value permission)) →
  let current :=
    local_communities [] (listed (list_values st _HKEY _COMMUNITIES_KEY)) in
  let t := (set_community_names communities st).2 in
  (∀ vname,
     vname ∈ dict_keys current → dict_get communities vname = None →
     DeleteValue _HKEY _COMMUNITIES_KEY vname ∈ t)
  ∧ (∀ vname permission vdata,
       vname ∉ dict_keys current →
       dict_get communities vname = Some permission →
       permission_value permission = Some vdata →
       SetValue _HKEY _COMMUNITIES_KEY vname (PInt vdata) "REG_DWORD" ∈ t)
  ∧ (∀ vname permission vdata,
       dict_eq communities current = false →
       vname ∈ dict_keys current →
       dict_get communities vname = Some permission →
       permission_value permission = Some vdata →
       SetValue _HKEY _COMMUNITIES_KEY vname (PInt vdata) "REG_DWORD" ∈ t).
Proof.
  intros Hgpo Hnodup Hvalid current t. subst t.
  unfold set_community_names.
  erewrite bind_trace; [|by unfold reg_key_exists; rewrite Hgpo].
  cbv beta iota.
  erewrite bind_trace by apply (get_community_names_local st Hgpo).
  fold current. destruct (dict_eq communities current) eqn:Heq.
  - pose proof (dict_eq_spec _ _ Hnodup (NoDup_local_communities _) Heq)
      as Hsame.
    split_and!.
    + intros vname [v Hv]%dict_get_is_Some Hnone.
      rewrite Hsame in Hnone. fold current in Hnone. congruence.
    + intros vname permission vdata Hnew%dict_get_None Hpermission _.
      rewrite Hsame in Hpermission. fold current in Hpermission. congruence.
    + by intros.
  - destruct (normalize_valid (dict_keys communities) communities [])
      as (values & Hnormalize & Hvalues); [done..|].
    assert (∀ vname, dict_get values vname = requested_value communities vname)
      as Hrequested.
    { intros vname. rewrite Hvalues. case_decide as Hin; [done|].
      apply dict_get_None in Hin. unfold requested_value. by rewrite Hin. }
    erewrite bind_trace; [|by unfold lift; rewrite Hnormalize].
    cbv beta iota zeta. cbn [fst snd].
    erewrite bind_trace; cycle 1.
    { apply reconcile_current_run.
      - intros k [v Hv]%dict_get_is_Some. revert Hv. subst current.
        rewrite dict_get_local_communities.
        destruct (stored _ _); [|done]. eauto.
      - intros k v. rewrite Hrequested. unfold requested_value.
        destruct (dict_get communities k ≫= permission_value); [|done].
        intros [= <-]. eauto. }
    erewrite bind_trace by by apply reconcile_new_run.
    set (t1 := dict_keys current ≫= reconcile_current values).
    set (t2 := dict_keys values ≫= reconcile_new current values).
    assert (∀ vname permission vdata,
              dict_get communities vname = Some permission →
              permission_value permission = Some vdata →
              dict_get values vname = Some (PInt vdata)) as Hvalue.
    { intros vname permission vdata Hpermission Hvdata.
      rewrite Hrequested. unfold requested_value. rewrite Hpermission.
      cbn [mbind option_bind]. by rewrite Hvdata. }
    split_and!.
    + intros vname Hcurrent Hnone.
      assert (DeleteValue _HKEY _COMMUNITIES_KEY vname ∈ t1) as Hin;
        [|rewrite !elem_of_app; auto 10].
      subst t1. apply list_elem_of_bind. exists vname. split; [|done].
      unfold reconcile_current. rewrite Hrequested. unfold requested_value.
      rewrite Hnone. left.
    + intros vname permission vdata Hnew Hpermission Hvdata.
      assert (SetValue _HKEY _COMMUNITIES_KEY vname (PInt vdata) "REG_DWORD"
              ∈ t2) as Hin;
        [|rewrite !elem_of_app; auto 10].
      subst t2. apply list_elem_of_bind. exists vname. split.
      * unfold reconcile_new. rewrite (Hvalue _ _ _ Hpermission Hvdata).
        assert (dict_mem vname current = false) as ->; [|left].
        apply not_true_iff_false. by rewrite dict_mem_spec.
      * apply dict_get_is_Some. eauto.
    + intros vname permission vdata _ Hcurrent Hpermission Hvdata.
      assert (SetValue _HKEY _COMMUNITIES_KEY vname (PInt vdata) "REG_DWORD"
              ∈ t1) as Hin;
        [|rewrite !elem_of_app; auto 10].
      subst t1. apply list_elem_of_bind. exists vname. split; [|done].
      unfold reconcile_current. rewrite (Hvalue _ _ _ Hpermission Hvdata).
      left.
Qed.

(** C2: on a registry without a Group Policy community key and for valid
    permission names, [set_community_names] returns [True]; every community
    of the current table that is not requested is deleted, and every
    requested community that is not in the current table is created with
    the integer of its permission.  In particular, requesting [a] as Read
    Only and [b] as Notify and then [a] as Read Only alone leaves the table
    with [a] as Read Only and without [b], and both calls return [True]. *)
Theorem set_community_names_reconciles (r : registry) (communities : pydict) :
  key_exists r _HKEY _COMMUNITIES_GPO_KEY = false →
  NoDup (dict_keys communities) →
  (∀ vname permission,
     dict_get communities vname = Some permission →
     is_Some (permission_value permission)) →
  (∃ r' t,
     set_community_names communities r = (Ok true, r', t)
     ∧ (∀ vname,
          is_Some (local_table r !! vname) →
          dict_get communities vname = None →
          DeleteValue _HKEY _COMMUNITIES_KEY vname ∈ t
          ∧ local_table r' !! vname = None)
     ∧ (∀ vname permission vdata,
          local_table r !! vname = None →
          dict_get communities vname = Some permission →
          permission_value permission = Some vdata →
          SetValue _HKEY _COMMUNITIES_KEY vname (PInt vdata) "REG_DWORD" ∈ t
          ∧ local_table r' !! vname = Some (PInt vdata)))
  ∧ (let first :=
       set_community_names
         [(PStr "a", PStr "Read Only"); (PStr "b", PStr "Notify")] r in
     let second :=
       set_community_names [(PStr "a", PStr "Read Only")] first.1.2 in
     first.1.1 = Ok true
     ∧ second.1.1 = Ok true
     ∧ local_table second.1.2 = {[ PStr "a" := PInt 4 ]}
     ∧ ∃ names,
         get_community_names second.1.2
           = (Ok names, second.1.2, local_reads false)
         ∧ dict_get names (PStr "a") = Some (PStr "Read Only")
         ∧ ∀ vname, vname ≠ PStr "a" → dict_get names vname = None).
Proof.
  intros Hgpo Hnodup Hvalid. split.
  - destruct (set_community_names_registry r communities Hgpo Hnodup Hvalid)
      as (r' & t & Hrun & _ & Htable & Hdeleted & Hcreated).
    exists r', t. split_and!; [done|..].
    + intros vname Hcurrent Hnone. split; [by apply Hdeleted|].
      rewrite Htable. unfold requested_value. by rewrite Hnone.
    + intros vname permission vdata Hnone Hpermission Hvdata.
      assert (requested_value communities vname = Some (PInt vdata)) as Hreq.
      { unfold requested_value. rewrite Hpermission. cbn. by rewrite Hvdata. }
      split; [by apply Hcreated|]. by rewrite Htable.
  - assert (∀ requested : pydict,
              requested = [(PStr "a", PStr "Read Only"); (PStr "b", PStr "Notify")]
              ∨ requested = [(PStr "a", PStr "Read Only")] →
              NoDup (dict_keys requested)
              ∧ ∀ vname permission,
                  dict_get requested vname = Some permission →
                  is_Some (permission_value permission)) as Hrequest.
    { intros requested [->| ->]; (split; [cbn; by repeat constructor;
        set_solver|]); intros vname permission Hget;
        apply dict_get_Some_elem in Hget;
        set_unfold in Hget; destruct_or!; simplify_eq; by eexists. }
    destruct (Hrequest _ (or_introl eq_refl)) as [Hnodup1 Hvalid1].
    destruct (Hrequest _ (or_intror eq_refl)) as [Hnodup2 Hvalid2].
    destruct (set_community_names_registry r _ Hgpo Hnodup1 Hvalid1)
      as (r1 & t1 & Hrun1 & Hgpo1 & _).
    destruct (set_community_names_registry r1 _ Hgpo1 Hnodup2 Hvalid2)
      as (r2 & t2 & Hrun2 & Hgpo2 & Htable2 & _).
    cbv zeta. rewrite Hrun1. cbn [fst snd]. rewrite Hrun2. cbn [fst snd].
    split_and!; [done..| |].
    + apply map_eq. intros vname. rewrite Htable2. unfold requested_value.
      cbn [dict_get]. destruct (decide (PStr "a" = vname)) as [<-|Hne].
      * by rewrite lookup_singleton_eq.
      * by rewrite lookup_singleton_ne.
    + destruct (registry_get_community_names r2 Hgpo2)
        as (names & Hnames & _ & Hget).
      exists names. split_and!; [done|..].
      * rewrite Hget, Htable2. reflexivity.
      * intros vname Hne. rewrite Hget, Htable2. unfold requested_value.
        cbn [dict_get]. by rewrite decide_False.
Qed.

Lemma set_community_names_reconciles_witness :
  (∃ r' t,
     set_community_names [(PStr "c", PStr "Read Write")] sample_communities
       = (Ok true, r', t)
     ∧ (∀ vname,
          is_Some (local_table sample_communities !! vname) →
          dict_get [(PStr "c", PStr "Read Write")] vname = None →
          DeleteValue _HKEY _COMMUNITIES_KEY vname ∈ t
          ∧ local_table r' !! vname = None)
     ∧ (∀ vname permission vdata,
          local_table sample_communities !! vname = None →
          dict_get [(PStr "c", PStr "Read Write")] vname = Some permission →
          permission_value permission = Some vdata →
          SetValue _HKEY _COMMUNITIES_KEY vname (PInt vdata) "REG_DWORD" ∈ t
          ∧ local_table r' !! vname = Some (PInt vdata)))
  ∧ (let first :=
       set_community_names
         [(PStr "a", PStr "Read Only"); (PStr "b", PStr "Notify")]
         sample_communities in
     let second :=
       set_community_names [(PStr "a", PStr "Read Only")] first.1.2 in
     first.1.1 = Ok true
     ∧ second.1.1 = Ok true
     ∧ local_table second.1.2 = {[ PStr "a" := PInt 4 ]}
     ∧ ∃ names,
         get_community_names second.1.2
           = (Ok names, second.1.2, local_reads false)
         ∧ dict_get names (PStr "a") = Some (PStr "Read Only")
         ∧ ∀ vname, vname ≠ PStr "a" → dict_get names vname = None).
Proof.
  apply (set_community_names_reconciles sample_communities
           [(PStr "c", PStr "Read Write")]).
  - reflexivity.
  - cbn. apply NoDup_singleton.
  - intros vname permission. cbn [dict_get].
    case_decide; [|done]. intros [= <-]. by eexists.
Defined.

(** * Further properties *)

(** ** Authentication traps *)

(** X1: [get_auth_traps_enabled] only reads, never raises, and reports
    [True] exactly when the stored data is a non-zero integer or a string
    that is neither empty nor the marker ["(value not set)"]; a missing
    value ([None]) and [0] read as [False]. *)
Theorem get_auth_traps_enabled_spec `{ConfigStore St} (st : St) :
  let vdata := read_value st _HKEY _SNMP_KEY (PStr "EnableAuthenticationTraps") in
  ∃ status,
    get_auth_traps_enabled st = (Ok status, st, auth_traps_read)
    ∧ (status = true ↔
         (∃ z, vdata = PInt z ∧ z ≠ 0)
         ∨ (∃ s, vdata = PStr s ∧ s ≠ "" ∧ s ≠ "(value not set)")).
Proof.
  intros vdata. unfold get_auth_traps_enabled, bind, reg_read_value, ret.
  fold vdata. cbv beta iota. unfold py_eq.
  destruct vdata as [|z|s]; cbn.
  - eexists. split; [done|]. naive_solver.
  - eexists. split; [done|]. unfold py_or, py_truthy.
    destruct (Z.eqb_spec z 0) as [->|Hz]; cbn.
    + naive_solver.
    + rewrite (proj2 (Z.eqb_neq z 0)) by done. naive_solver.
  - case_bool_decide as Hs; [eexists; split; [done|]; naive_solver|].
    eexists. split; [done|]. unfold py_or, py_truthy.
    destruct (String.eqb_spec s "") as [->|Hne]; cbn.
    + naive_solver.
    + rewrite (proj2 (String.eqb_neq s "")) by done. cbn.
      split; [|done]. intros _. right. exists s. naive_solver.
Qed.

(** X2: on a store where a written [EnableAuthenticationTraps] value reads
    back, [set_auth_traps_enabled status] returns [True] for either status,
    and [get_auth_traps_enabled] then returns [status]. *)
Theorem set_auth_traps_enabled_round_trip `{ConfigStore St} (st : St)
    (status : bool) :
  (∀ st0 vdata,
     read_value
       (set_value st0 _HKEY _SNMP_KEY (PStr "EnableAuthenticationTraps") vdata
          "REG_DWORD")
       _HKEY _SNMP_KEY (PStr "EnableAuthenticationTraps") = vdata) →
  ∃ st' t,
    set_auth_traps_enabled status st = (Ok true, st', t)
    ∧ get_auth_traps_enabled st' = (Ok status, st', auth_traps_read).
Proof.
  intros Hlaw.
  destruct (get_auth_traps_enabled_run st) as [current Hcurrent].
  unfold set_auth_traps_enabled. step_with Hcurrent.
  case_bool_decide as Hsame.
  - subst current. by eexists _, _.
  - unfold bind at 1, reg_set_value at 1. cbv beta iota.
    set (st' := set_value _ _ _ _ _ _).
    assert (get_auth_traps_enabled st' = (Ok status, st', auth_traps_read))
      as Hnew.
    { unfold get_auth_traps_enabled, bind, reg_read_value, ret.
      subst st'. rewrite Hlaw. by destruct status. }
    step_with Hnew. rewrite bool_decide_eq_true_2 by done. by eexists _, _.
Qed.

Lemma set_auth_traps_enabled_round_trip_witness :
  ∃ st' t,
    set_auth_traps_enabled true sample_agent = (Ok true, st', t)
    ∧ get_auth_traps_enabled st' = (Ok true, st', auth_traps_read).
Proof.
  apply (set_auth_traps_enabled_round_trip sample_agent true).
  intros st0 vdata. apply registry_read_set.
Defined.

(** X3: [set_auth_traps_enabled] is idempotent on every store: after a call
    that returned [True], the same call returns [True] again after a single
    read, without a write. *)
Theorem set_auth_traps_enabled_idempotent `{ConfigStore St} (st st1 : St)
    (status : bool) (t1 : list event) :
  set_auth_traps_enabled status st = (Ok true, st1, t1) →
  set_auth_traps_enabled status st1 = (Ok true, st1, auth_traps_read).
Proof.
  destruct (get_auth_traps_enabled_run st) as [current Hcurrent].
  unfold set_auth_traps_enabled at 1. step_with Hcurrent.
  case_bool_decide as Hsame.
  - intros [= <- <-]. unfold set_auth_traps_enabled. step_with Hcurrent.
    by rewrite bool_decide_eq_true_2.
  - unfold bind at 1, reg_set_value at 1. cbv beta iota.
    set (st' := set_value _ _ _ _ _ _).
    destruct (get_auth_traps_enabled_run st') as [new Hnew].
    step_with Hnew. case_bool_decide as Hnew_same; [|done].
    intros [= <- <-]. unfold set_auth_traps_enabled. step_with Hnew.
    by rewrite bool_decide_eq_true_2.
Qed.

Lemma set_auth_traps_enabled_idempotent_witness :
  let first := set_auth_traps_enabled true sample_agent in
  set_auth_traps_enabled true first.1.2 = (Ok true, first.1.2, auth_traps_read).
Proof.
  intros first.
  apply (set_auth_traps_enabled_idempotent sample_agent first.1.2 true first.2).
  reflexivity.
Defined.

(** ** Reading the agent settings *)

Lemma services_loop_picks sorted_types current_bitmask services accepted :
  services_loop sorted_types current_bitmask services = Ok accepted →
  ∃ picked, accepted = services ++ picked ∧ picked `sublist_of` sorted_types.*1.
Proof.
  revert current_bitmask services.
  induction sorted_types as [|[service bitmask] sorted_types IH];
    intros current_bitmask services; cbn [services_loop].
  { intros [= <-]. exists []. by rewrite app_nil_r. }
  assert (∃ picked, services = services ++ picked
                    ∧ picked `sublist_of` ((service, bitmask) :: sorted_types).*1)
    as Hstop.
  { exists []. rewrite app_nil_r. split; [done|]. apply sublist_nil_l. }
  destruct current_bitmask as [|current|]; [by intros [= <-]| |done].
  destruct (0 <? current); [|by intros [= <-]].
  destruct (0 <=? current - bitmask).
  - intros (picked & -> & Hsub)%IH. exists (service :: picked).
    rewrite <-app_assoc. split; [done|]. by apply sublist_skip.
  - intros (picked & -> & Hsub)%IH. exists picked.
    split; [done|]. by apply sublist_cons.
Qed.

Lemma decode_services_ok current_bitmask services :
  decode_services current_bitmask = Ok services →
  StronglySorted str_le services ∧ NoDup services
  ∧ services ⊆ get_agent_service_types.
Proof.
  unfold decode_services. case (py_eq current_bitmask (PInt 0)).
  { intros [= <-]. vm_compute sorted. split_and!.
    - repeat constructor.
    - apply NoDup_singleton.
    - unfold get_agent_service_types. cbn. set_solver. }
  destruct (services_loop _ _ _) as [accepted|] eqn:Hloop; [|done].
  intros [= <-]. apply services_loop_picks in Hloop as (picked & -> & Hsub).
  rewrite app_nil_l.
  assert (NoDup (merge_sort service_key_le _SERVICE_TYPES).*1) as Hnodup.
  { vm_compute. by repeat (constructor; [set_solver|]); constructor. }
  split_and!.
  - apply StronglySorted_sorted.
  - unfold sorted. rewrite merge_sort_Permutation.
    by eapply sublist_NoDup.
  - intros service Hin. rewrite elem_of_sorted in Hin.
    apply (sublist_subseteq _ _ Hsub) in Hin. revert Hin.
    change ((merge_sort service_key_le _SERVICE_TYPES).*1)
      with (reverse get_agent_service_types).
    by rewrite elem_of_reverse.
Qed.

(** X4: [get_agent_settings] only reads; it raises exactly when the stored
    [sysServices] data is a string, and then it raises [TypeError]; for a
    missing value ([None]) or a negative integer it returns an empty list
    of services. *)
Theorem get_agent_settings_edges `{ConfigStore St} (st : St) :
  let vdata := read_value st _HKEY _AGENT_KEY (PStr "sysServices") in
  (∃ outcome, get_agent_settings st = (outcome, st, agent_reads))
  ∧ (∀ s, vdata = PStr s →
       get_agent_settings st = (Raise TypeError, st, agent_reads))
  ∧ ((∃ e, (get_agent_settings st).1.1 = Raise e) → ∃ s, vdata = PStr s)
  ∧ (vdata = PNone ∨ (∃ z, vdata = PInt z ∧ z < 0) →
       ∃ settings,
         get_agent_settings st = (Ok settings, st, agent_reads)
         ∧ Settings.services settings = []).
Proof.
  intros vdata. rewrite !get_agent_settings_run. fold vdata. split_and!.
  - eauto.
  - by intros s ->.
  - intros [e He]. cbn [fst] in He. destruct vdata as [|z|s]; [done| |eauto].
    destruct (decide (0 ≤ z)) as [Hz|Hz].
    + destruct (decode_services_nonneg z Hz) as (? & Hok & _).
      by rewrite Hok in He.
    + revert He. unfold decode_services, py_eq.
      rewrite bool_decide_eq_false_2 by (intros [=]; lia).
      vm_compute merge_sort. cbn [services_loop].
      by rewrite (proj2 (Z.ltb_ge 0 z)) by lia.
  - intros [->|(z & -> & Hz)]; [by eexists|].
    unfold decode_services, py_eq.
    rewrite bool_decide_eq_false_2 by (intros [=]; lia).
    vm_compute merge_sort. cbn [services_loop].
    rewrite (proj2 (Z.ltb_ge 0 z)) by lia. by eexists.
Qed.

(** The services of a successful [get_agent_settings]. *)
Lemma get_agent_settings_sorted `{ConfigStore St} (st st' : St)
    (settings : agent_settings) (t : list event) :
  get_agent_settings st = (Ok settings, st', t) →
  StronglySorted str_le (Settings.services settings)
  ∧ NoDup (Settings.services settings)
  ∧ Settings.services settings ⊆ get_agent_service_types.
Proof.
  rewrite get_agent_settings_run.
  destruct (decode_services _) as [services|] eqn:Hdecode; [|done].
  intros [= <- <- <-]. cbn [Settings.services].
  by apply decode_services_ok in Hdecode as (? & ? & ?).
Qed.

(** X5: whatever the store holds, the services [get_agent_settings] returns
    are ServiceType names, sorted by name and without duplicates; the call
    leaves the store as it is and issues no write. *)
Theorem get_agent_settings_services `{ConfigStore St} (st st' : St)
    (settings : agent_settings) (t : list event) :
  get_agent_settings st = (Ok settings, st', t) →
  st' = st ∧ mutations t = []
  ∧ StronglySorted str_le (Settings.services settings)
  ∧ NoDup (Settings.services settings)
  ∧ Settings.services settings ⊆ get_agent_service_types.
Proof.
  rewrite get_agent_settings_run.
  destruct (decode_services _) as [services|] eqn:Hdecode; [|done].
  intros [= <- <- <-]. cbn [Settings.services].
  apply decode_services_ok in Hdecode as (? & ? & ?). by split_and!.
Qed.

Lemma get_agent_settings_services_witness :
  sample_agent = sample_agent ∧ mutations agent_reads = []
  ∧ StronglySorted str_le (Settings.services sample_agent_settings)
  ∧ NoDup (Settings.services sample_agent_settings)
  ∧ Settings.services sample_agent_settings ⊆ get_agent_service_types.
Proof.
  apply (get_agent_settings_services sample_agent sample_agent
           sample_agent_settings agent_reads).
  reflexivity.
Defined.

(** ** Writing the agent settings to a store that keeps its values *)

Lemma sorted_set_same_set selection (services : list string) :
  StronglySorted str_le services → NoDup services →
  list_to_set selection =@{gset string} list_to_set services →
  sorted_set selection = services.
Proof.
  intros Hsorted Hnodup Hsame. apply sorted_unique; [|done| |done|].
  - apply StronglySorted_sorted.
  - apply NoDup_sorted_set.
  - intros x. rewrite elem_of_sorted_set.
    rewrite <-(elem_of_list_to_set (C:=gset string) x selection), Hsame.
    apply elem_of_list_to_set.
Qed.

Lemma sorted_set_all_none selection :
  selection ≠ [] → (∀ service, service ∈ selection → service = "None") →
  sorted_set selection = ["None"].
Proof.
  intros Hsome Hnone.
  apply (sorted_set_same_set selection ["None"]).
  - repeat constructor.
  - apply NoDup_singleton.
  - apply set_eq. intros x. rewrite !elem_of_list_to_set, list_elem_of_singleton.
    split; [apply Hnone|]. intros ->.
    destruct selection as [|s selection]; [done|].
    rewrite <-(Hnone s) by left. left.
Qed.

Lemma named_services_all selection :
  "None" ∉ selection → named_services selection = selection.
Proof.
  intros Hnone. unfold named_services.
  induction selection as [|s selection IH]; [done|].
  apply not_elem_of_cons in Hnone as [Hs Hnone].
  rewrite filter_cons, decide_True by done. by rewrite IH.
Qed.

(** What the reader decodes from the bitmask of a representable selection,
    and from one that is not. *)
Lemma decode_services_representable selection :
  Forall (λ service, service ∈ get_agent_service_types) selection →
  representable selection →
  decode_services (PInt (or_mask selection)) = Ok (sorted_set selection).
Proof.
  intros Hvalid [Hsome [Hnone|Hnone]]; rewrite decode_services_or_mask by done.
  - rewrite named_services_all by done. by destruct selection.
  - assert (named_services selection = []) as ->.
    { destruct (named_services selection) as [|s named] eqn:Hnamed; [done|].
      assert (s ∈ named_services selection) as Hs by (rewrite Hnamed; left).
      apply list_elem_of_filter in Hs as [Hs Hin]. by apply Hnone in Hin. }
    by rewrite sorted_set_all_none.
Qed.

Lemma decode_services_unrepresentable selection services :
  Forall (λ service, service ∈ get_agent_service_types) selection →
  ¬ representable selection →
  decode_services (PInt (or_mask selection)) = Ok services →
  services ≠ sorted_set selection.
Proof.
  intros Hvalid Hnot. rewrite decode_services_or_mask by done.
  intros [= <-] Heq.
  destruct (named_services selection) as [|s named] eqn:Hnamed.
  - symmetry in Heq. apply Hnot.
    assert (∀ service, service ∈ selection → service = "None") as Hnone.
    { intros service Hin. destruct (decide (service = "None")); [done|].
      assert (service ∈ named_services selection) as Hin'
        by (by apply list_elem_of_filter).
      rewrite Hnamed in Hin'. by apply elem_of_nil in Hin'. }
    split; [|by right]. intros ->. done.
  - apply Hnot. split.
    { intros ->. done. }
    left. intros Hnone. apply elem_of_sorted_set in Hnone.
    rewrite <-Heq, elem_of_sorted_set, <-Hnamed in Hnone.
    by apply list_elem_of_filter in Hnone as [? _].
Qed.

Section lawful_agent.
Context `{ConfigStore St}.
Implicit Types st : St.

(** The values of the agent key after the writes of [agent_writes], on a
    store whose agent key keeps what is written. *)
Lemma read_after_agent_writes st contact location services current :
  (∀ st0 vname vdata vtype vname',
     read_value (set_value st0 _HKEY _AGENT_KEY vname vdata vtype)
       _HKEY _AGENT_KEY vname'
     = if decide (vname = vname') then vdata
       else read_value st0 _HKEY _AGENT_KEY vname') →
  let st' := replay (agent_writes contact location services current) st in
  read_value st' _HKEY _AGENT_KEY (PStr "sysContact")
    = (if bool_decide (contact ≠ PNone ∧ contact ≠ Settings.contact current)
       then contact else read_value st _HKEY _AGENT_KEY (PStr "sysContact"))
  ∧ read_value st' _HKEY _AGENT_KEY (PStr "sysLocation")
    = (if bool_decide (location ≠ PNone
                       ∧ location ≠ Settings.location current)
       then location else read_value st _HKEY _AGENT_KEY (PStr "sysLocation"))
  ∧ read_value st' _HKEY _AGENT_KEY (PStr "sysServices")
    = match services with
      | Some selection =>
          if bool_decide (list_to_set selection
                            ≠@{gset string}
                          list_to_set (Settings.services current))
          then PInt (or_mask selection)
          else read_value st _HKEY _AGENT_KEY (PStr "sysServices")
      | None => read_value st _HKEY _AGENT_KEY (PStr "sysServices")
      end.
Proof.
  intros Hlaw st'. subst st'. unfold agent_writes.
  destruct (bool_decide (contact ≠ PNone ∧ _)),
    (bool_decide (location ≠ PNone ∧ _));
    destruct services as [selection|];
    try destruct (bool_decide (list_to_set selection ≠ _));
    cbn [app replay foldl]; rewrite ?Hlaw; done.
Qed.
End lawful_agent.

Lemma written_or_kept (requested current : pyval) :
  (if bool_decide (requested ≠ PNone ∧ requested ≠ current)
   then requested else current)
  = if decide (requested = PNone) then current else requested.
Proof.
  destruct (decide (requested = PNone)) as [->|?].
  - by rewrite bool_decide_eq_false_2 by naive_solver.
  - destruct (decide (requested = current)) as [->|?].
    + by rewrite bool_decide_eq_false_2 by naive_solver.
    + by rewrite bool_decide_eq_true_2.
Qed.

(** The record [get_agent_settings] returns is made of the three reads. *)
Lemma get_agent_settings_inv `{ConfigStore St} (st : St) current :
  get_agent_settings st = (Ok current, st, agent_reads) →
  Settings.contact current = read_value st _HKEY _AGENT_KEY (PStr "sysContact")
  ∧ Settings.location current
    = read_value st _HKEY _AGENT_KEY (PStr "sysLocation")
  ∧ decode_services (read_value st _HKEY _AGENT_KEY (PStr "sysServices"))
    = Ok (Settings.services current).
Proof.
  rewrite get_agent_settings_run.
  destruct (decode_services _); [|done]. by intros [= <-].
Qed.

(** *** Settings that cannot be read *)

Lemma decode_services_string s : decode_services (PStr s) = Raise TypeError.
Proof.
  unfold decode_services, py_eq.
  rewrite bool_decide_eq_false_2 by done.
  vm_compute merge_sort. done.
Qed.

Lemma decode_services_readable vdata :
  (∀ s, vdata ≠ PStr s) → ∃ services, decode_services vdata = Ok services.
Proof.
  intros Hdata. destruct vdata as [|z|s]; [by eexists| |by destruct (Hdata s)].
  destruct (decide (0 ≤ z)) as [Hz|Hz].
  - destruct (decode_services_nonneg z Hz) as (services & Hok & _). eauto.
  - unfold decode_services, py_eq.
    rewrite bool_decide_eq_false_2 by (intros [=]; lia).
    vm_compute merge_sort. cbn [services_loop].
    rewrite (proj2 (Z.ltb_ge 0 z)) by lia. by eexists.
Qed.

Section unreadable.
Context `{ConfigStore St}.
Implicit Types st : St.

Lemma get_agent_settings_string st s :
  read_value st _HKEY _AGENT_KEY (PStr "sysServices") = PStr s →
  get_agent_settings st = (Raise TypeError, st, agent_reads).
Proof.
  intros Hdata. by rewrite get_agent_settings_run, Hdata, decode_services_string.
Qed.

Lemma get_agent_settings_readable st :
  (∀ s, read_value st _HKEY _AGENT_KEY (PStr "sysServices") ≠ PStr s) →
  ∃ current, get_agent_settings st = (Ok current, st, agent_reads).
Proof.
  intros [services Hok]%decode_services_readable.
  rewrite get_agent_settings_run, Hok. by eexists.
Qed.

(** With valid service names, what the first [get_agent_settings] raises is
    what [set_agent_settings] raises, before any write. *)
Lemma set_agent_settings_unreadable st contact location services e :
  (∀ selection, services = Some selection →
     Forall (λ service, service ∈ get_agent_service_types) selection) →
  get_agent_settings st = (Raise e, st, agent_reads) →
  set_agent_settings contact location services st
    = (Raise e, st, agent_reads).
Proof.
  intros Hvalid Hcurrent.
  unfold set_agent_settings. unfold bind at 1.
  match goal with
  | |- match ?validation with _ => _ end = _ =>
      assert (validation = (Ok (sorted_set <$> services), st, [])) as ->
  end.
  { destruct services as [selection|]; [|done]. cbn zeta.
    unfold bind. rewrite validate_services_ok; [done|].
    apply Forall_sorted_set. by apply Hvalid. }
  by step_with Hcurrent.
Qed.
End unreadable.

(** On a store whose agent key keeps what is written and whose settings
    can be read, a valid representable selection is stored and shown. *)
Lemma set_agent_settings_kept `{ConfigStore St} (st : St)
    (contact location : pyval) (services : option (list string))
    (current : agent_settings) :
  (∀ st0 vname vdata vtype vname',
     read_value (set_value st0 _HKEY _AGENT_KEY vname vdata vtype)
       _HKEY _AGENT_KEY vname'
     = if decide (vname = vname') then vdata
       else read_value st0 _HKEY _AGENT_KEY vname') →
  get_agent_settings st = (Ok current, st, agent_reads) →
  (∀ selection, services = Some selection →
     Forall (λ service, service ∈ get_agent_service_types) selection
     ∧ representable selection) →
  ∃ st' t new_settings,
    set_agent_settings contact location services st = (Ok true, st', t)
    ∧ get_agent_settings st' = (Ok new_settings, st', agent_reads)
    ∧ Settings.contact new_settings
      = (if decide (contact = PNone) then Settings.contact current
         else contact)
    ∧ Settings.location new_settings
      = (if decide (location = PNone) then Settings.location current
         else location)
    ∧ Settings.services new_settings
      = match services with
        | Some selection => sorted_set selection
        | None => Settings.services current
        end.
Proof.
  intros Hlaw Hcurrent Hrequest.
  assert (∀ selection, services = Some selection →
            Forall (λ service, service ∈ get_agent_service_types) selection)
    as Hvalid by (intros ? ?; by apply Hrequest).
  destruct (get_agent_settings_inv st current Hcurrent)
    as (Hcontact & Hlocation & Hservices).
  pose proof (get_agent_settings_sorted st st current agent_reads Hcurrent)
    as (Hsorted & Hnodup & _).
  rewrite (set_agent_settings_run _ _ _ _ _ Hvalid Hcurrent).
  destruct (settings_eq _ _ _ _) eqn:Heq.
  - exists st, agent_reads, current. split_and!; [done..| | |].
    + case_decide; [done|].
      unfold settings_eq, py_eq in Heq. symmetry.
      by apply andb_true_iff in Heq as [[?%bool_decide_eq_true _]%andb_true_iff _].
    + case_decide; [done|].
      unfold settings_eq, py_eq in Heq. symmetry.
      by apply andb_true_iff in Heq as [[_ ?%bool_decide_eq_true]%andb_true_iff _].
    + unfold settings_eq in Heq.
      apply andb_true_iff in Heq as [_ Hs%bool_decide_eq_true].
      destruct services; by simplify_eq/=.
  - destruct (read_after_agent_writes st contact location services current Hlaw)
      as (Hc & Hl & Hs).
    set (st' := replay _ st) in *.
    assert (decode_services
              (read_value st' _HKEY _AGENT_KEY (PStr "sysServices"))
            = Ok (match services with
                  | Some selection => sorted_set selection
                  | None => Settings.services current
                  end)) as Hdecode.
    { rewrite Hs. destruct services as [selection|]; [|done].
      destruct (decide (list_to_set selection
                          =@{gset string}
                        list_to_set (Settings.services current)))
        as [Hsame|Hdiffer].
      - rewrite bool_decide_eq_false_2 by naive_solver.
        rewrite Hservices. f_equal. symmetry.
        by apply sorted_set_same_set.
      - rewrite bool_decide_eq_true_2 by done.
        destruct (Hrequest selection eq_refl).
        by apply decode_services_representable. }
    pose proof (get_agent_settings_run st') as Hnew.
    rewrite Hdecode, Hc, Hl in Hnew.
    rewrite Hnew. cbn [fst snd].
    eexists _, _, _. split_and!; [|done|..].
    + do 2 f_equal. f_equal. apply bool_decide_eq_true_2.
      unfold failed_settings, py_eq. cbn [Settings.contact Settings.location
                                            Settings.services].
      rewrite <-Hcontact, <-Hlocation.
      destruct services as [selection|];
        cbn [fmap option_fmap option_map];
        repeat case_bool_decide; destruct_and?; try done; naive_solver.
    + cbn [Settings.contact]. rewrite <-Hcontact. apply written_or_kept.
    + cbn [Settings.location]. rewrite <-Hlocation. apply written_or_kept.
    + done.
Qed.

(** X6: on a store whose agent key keeps what is written, and for valid
    service names forming a representable selection: when the stored
    [sysServices] data is a string, [set_agent_settings] raises [TypeError]
    after its three reads and before any write; otherwise it returns
    [True], and [get_agent_settings] then shows every provided field as
    requested (the services sorted and without duplicates) and every field
    left unset as it was. *)
Theorem set_agent_settings_round_trip `{ConfigStore St} (st : St)
    (contact location : pyval) (services : option (list string)) :
  (∀ st0 vname vdata vtype vname',
     read_value (set_value st0 _HKEY _AGENT_KEY vname vdata vtype)
       _HKEY _AGENT_KEY vname'
     = if decide (vname = vname') then vdata
       else read_value st0 _HKEY _AGENT_KEY vname') →
  (∀ selection, services = Some selection →
     Forall (λ service, service ∈ get_agent_service_types) selection
     ∧ representable selection) →
  (∀ s, read_value st _HKEY _AGENT_KEY (PStr "sysServices") = PStr s →
     set_agent_settings contact location services st
       = (Raise TypeError, st, agent_reads))
  ∧ ((∀ s, read_value st _HKEY _AGENT_KEY (PStr "sysServices") ≠ PStr s) →
     ∃ current st' t new_settings,
       get_agent_settings st = (Ok current, st, agent_reads)
       ∧ set_agent_settings contact location services st = (Ok true, st', t)
       ∧ get_agent_settings st' = (Ok new_settings, st', agent_reads)
       ∧ Settings.contact new_settings
         = (if decide (contact = PNone) then Settings.contact current
            else contact)
       ∧ Settings.location new_settings
         = (if decide (location = PNone) then Settings.location current
            else location)
       ∧ Settings.services new_settings
         = match services with
           | Some selection => sorted_set selection
           | None => Settings.services current
           end).
Proof.
  intros Hlaw Hrequest.
  assert (∀ selection, services = Some selection →
            Forall (λ service, service ∈ get_agent_service_types) selection)
    as Hvalid by (intros ? ?; by apply Hrequest).
  split.
  - intros s Hdata. apply set_agent_settings_unreadable; [done|].
    by apply (get_agent_settings_string st s).
  - intros [current Hcurrent]%get_agent_settings_readable.
    destruct (set_agent_settings_kept st contact location services current
                Hlaw Hcurrent Hrequest)
      as (st' & t & new_settings & Hrun & Hnew & Hfields).
    by exists current, st', t, new_settings.
Qed.

Lemma registry_read_set_key (r : registry) hive key vname vdata vtype vname' :
  read_value (set_value r hive key vname vdata vtype) hive key vname'
    = if decide (vname = vname') then vdata else read_value r hive key vname'.
Proof.
  cbn. rewrite decide_True by done. cbn. rewrite lookup_insert.
  case_decide; [done|]. by destruct (reg_values r hive key).
Qed.

Lemma set_agent_settings_round_trip_witness :
  ∃ current st' t new_settings,
    get_agent_settings sample_agent = (Ok current, sample_agent, agent_reads)
    ∧ set_agent_settings (PStr "noc") PNone
        (Some ["Physical"; "Applications"]) sample_agent = (Ok true, st', t)
    ∧ get_agent_settings st' = (Ok new_settings, st', agent_reads)
    ∧ Settings.contact new_settings
      = (if decide (PStr "noc" = PNone)
         then Settings.contact current else PStr "noc")
    ∧ Settings.location new_settings
      = (if decide (PNone = PNone)
         then Settings.location current else PNone)
    ∧ Settings.services new_settings
      = match Some ["Physical"; "Applications"] with
        | Some selection => sorted_set selection
        | None => Settings.services current
        end.
Proof.
  refine (proj2 (set_agent_settings_round_trip sample_agent (PStr "noc") PNone
                   (Some ["Physical"; "Applications"]) _ _) _).
  - intros. apply registry_read_set_key.
  - intros selection [= <-]. split; [repeat constructor|].
    split; [done|]. left. rewrite !elem_of_cons, elem_of_nil. naive_solver.
  - intros s. vm_compute. discriminate.
Defined.

(** X7: on a store whose agent key keeps what is written, a valid selection
    of services that is not representable (it is empty, or it has ["None"]
    beside another service) and differs from the current set makes
    [set_agent_settings] return [False], although the or-combination of the
    selection is stored. *)
Theorem set_agent_settings_unrepresentable `{ConfigStore St} (st : St)
    (contact location : pyval) (selection : list string)
    (current : agent_settings) :
  (∀ st0 vname vdata vtype vname',
     read_value (set_value st0 _HKEY _AGENT_KEY vname vdata vtype)
       _HKEY _AGENT_KEY vname'
     = if decide (vname = vname') then vdata
       else read_value st0 _HKEY _AGENT_KEY vname') →
  get_agent_settings st = (Ok current, st, agent_reads) →
  Forall (λ service, service ∈ get_agent_service_types) selection →
  ¬ representable selection →
  list_to_set selection ≠@{gset string} list_to_set (Settings.services current) →
  ∃ st' t,
    set_agent_settings contact location (Some selection) st = (Ok false, st', t)
    ∧ read_value st' _HKEY _AGENT_KEY (PStr "sysServices")
      = PInt (or_mask selection).
Proof.
  intros Hlaw Hcurrent Hvalid Hnot Hdiffer.
  assert (∀ selection', Some selection = Some selection' →
            Forall (λ service, service ∈ get_agent_service_types) selection')
    as Hvalid' by (by intros ? [= <-]).
  rewrite (set_agent_settings_run _ _ _ _ _ Hvalid' Hcurrent).
  assert (settings_eq contact location (sorted_set <$> Some selection) current
          = false) as ->.
  { unfold settings_eq. rewrite (bool_decide_eq_false_2 (_ = Some _)).
    - by rewrite andb_false_r.
    - intros [= Heq]. apply Hdiffer. by rewrite <-Heq, list_to_set_sorted_set. }
  destruct (read_after_agent_writes st contact location (Some selection)
              current Hlaw) as (_ & _ & Hs).
  rewrite bool_decide_eq_true_2 in Hs by done.
  set (st' := replay _ st) in *.
  rewrite (get_agent_settings_run st'), Hs. cbn [fst].
  destruct (decode_services (PInt (or_mask selection))) as [services|e]
    eqn:Hdecode.
  2:{ by rewrite decode_services_or_mask in Hdecode. }
  exists st'. eexists. split; [|done].
  do 2 f_equal. f_equal. apply bool_decide_eq_false_2.
  unfold failed_settings. cbn [fmap option_fmap option_map Settings.services].
  rewrite (bool_decide_eq_true_2 (sorted_set selection ≠ services)).
  - intros (_ & (_ & [=])%app_eq_nil)%app_eq_nil.
  - intros Heq. by eapply decode_services_unrepresentable.
Qed.

Lemma set_agent_settings_unrepresentable_witness :
  ∃ st' t,
    set_agent_settings PNone PNone (Some ["None"; "Applications"]) sample_agent
      = (Ok false, st', t)
    ∧ read_value st' _HKEY _AGENT_KEY (PStr "sysServices")
      = PInt (or_mask ["None"; "Applications"]).
Proof.
  apply (set_agent_settings_unrepresentable sample_agent PNone PNone
           ["None"; "Applications"] sample_agent_settings).
  - intros. apply registry_read_set_key.
  - reflexivity.
  - repeat constructor.
  - intros [_ [Hnone|Hall]].
    + apply Hnone. left.
    + by specialize (Hall "Applications" ltac:(right; left)).
  - intros Heq.
    assert ("None" ∈@{gset string} list_to_set ["None"; "Applications"])
      as Hin by (apply elem_of_list_to_set; left).
    rewrite Heq in Hin. apply elem_of_list_to_set in Hin. revert Hin.
    cbn. rewrite !elem_of_cons, elem_of_nil. naive_solver.
Defined.

(** ** Writing the agent settings to a store that refuses writes *)

Lemma agent_writes_nil_verified contact location services current :
  StronglySorted str_le (Settings.services current) →
  NoDup (Settings.services current) →
  agent_writes contact location services current = [] →
  failed_settings contact location (sorted_set <$> services) current = [].
Proof.
  intros Hsorted Hnodup. unfold agent_writes, failed_settings, py_eq.
  intros (Hc & (Hl & Hs)%app_eq_nil)%app_eq_nil.
  rewrite <-!bool_decide_not, <-!bool_decide_and.
  destruct (bool_decide (contact ≠ PNone ∧ _)); [done|].
  destruct (bool_decide (location ≠ PNone ∧ _)); [done|].
  destruct services as [selection|]; [|done].
  cbn [fmap option_fmap option_map app].
  destruct (decide (list_to_set selection
                      =@{gset string}
                    list_to_set (Settings.services current)))
    as [Hsame|Hdiffer].
  - by rewrite bool_decide_eq_false_2
      by (intros Hne; apply Hne; by apply sorted_set_same_set).
  - by rewrite bool_decide_eq_true_2 in Hs.
Qed.

Lemma read_after_refused_writes `{ConfigStore St} (st : St)
    contact location services current vname :
  (∀ st0 hive key vname vdata vtype vname',
     read_value (set_value st0 hive key vname vdata vtype)
       _HKEY _AGENT_KEY vname'
     = read_value st0 _HKEY _AGENT_KEY vname') →
  read_value (replay (agent_writes contact location services current) st)
    _HKEY _AGENT_KEY vname
  = read_value st _HKEY _AGENT_KEY vname.
Proof.
  intros Hrefused. unfold agent_writes.
  destruct (bool_decide (contact ≠ PNone ∧ _)),
    (bool_decide (location ≠ PNone ∧ _));
    destruct services as [selection|];
    try destruct (bool_decide (list_to_set selection ≠ _));
    cbn [app replay foldl]; rewrite ?Hrefused; done.
Qed.

(** On a store where no write changes what is read and whose settings can
    be read, the verification passes exactly when nothing was to be
    written. *)
Lemma set_agent_settings_ignored `{ConfigStore St} (st : St)
    (contact location : pyval) (services : option (list string))
    (current : agent_settings) :
  (∀ st0 hive key vname vdata vtype vname',
     read_value (set_value st0 hive key vname vdata vtype)
       _HKEY _AGENT_KEY vname'
     = read_value st0 _HKEY _AGENT_KEY vname') →
  get_agent_settings st = (Ok current, st, agent_reads) →
  (∀ selection, services = Some selection →
     Forall (λ service, service ∈ get_agent_service_types) selection) →
  ∃ st' t,
    set_agent_settings contact location services st
      = (Ok (bool_decide (agent_writes contact location services current = [])),
         st', t).
Proof.
  intros Hrefused Hcurrent Hvalid.
  pose proof (get_agent_settings_sorted st st current agent_reads Hcurrent)
    as (Hsorted & Hnodup & _).
  rewrite (set_agent_settings_run _ _ _ _ _ Hvalid Hcurrent).
  destruct (settings_eq _ _ _ _) eqn:Heq.
  - apply settings_eq_verified, agent_writes_verified in Heq.
    rewrite Heq. by eexists _, _.
  - set (st' := replay _ st).
    assert (get_agent_settings st' = (Ok current, st', agent_reads)) as Hnew.
    { rewrite get_agent_settings_run. subst st'.
      rewrite !read_after_refused_writes by done.
      rewrite get_agent_settings_run in Hcurrent.
      destruct (decode_services _); [|done]. by injection Hcurrent as ->. }
    rewrite Hnew. cbn [fst]. eexists _, _. do 2 f_equal. f_equal.
    apply bool_decide_ext. split.
    + apply agent_writes_verified.
    + by apply agent_writes_nil_verified.
Qed.

(** X8: on a store where no write changes what is read, and for valid
    service names: when the stored [sysServices] data is a string,
    [set_agent_settings] raises [TypeError] after its three reads;
    otherwise it does not raise, and returns [True] when it had nothing to
    write and [False] when it had. *)
Theorem set_agent_settings_refused `{ConfigStore St} (st : St)
    (contact location : pyval) (services : option (list string)) :
  (∀ st0 hive key vname vdata vtype vname',
     read_value (set_value st0 hive key vname vdata vtype)
       _HKEY _AGENT_KEY vname'
     = read_value st0 _HKEY _AGENT_KEY vname') →
  (∀ selection, services = Some selection →
     Forall (λ service, service ∈ get_agent_service_types) selection) →
  (∀ s, read_value st _HKEY _AGENT_KEY (PStr "sysServices") = PStr s →
     set_agent_settings contact location services st
       = (Raise TypeError, st, agent_reads))
  ∧ ((∀ s, read_value st _HKEY _AGENT_KEY (PStr "sysServices") ≠ PStr s) →
     ∃ current st' t,
       get_agent_settings st = (Ok current, st, agent_reads)
       ∧ set_agent_settings contact location services st
         = (Ok (bool_decide
                  (agent_writes contact location services current = [])),
            st', t)).
Proof.
  intros Hrefused Hvalid. split.
  - intros s Hdata. apply set_agent_settings_unreadable; [done|].
    by apply (get_agent_settings_string st s).
  - intros [current Hcurrent]%get_agent_settings_readable.
    destruct (set_agent_settings_ignored st contact location services current
                Hrefused Hcurrent Hvalid) as (st' & t & Hrun).
    by exists current, st', t.
Qed.

Lemma set_agent_settings_refused_witness :
  ∃ current st' t,
    get_agent_settings (Denied sample_agent)
      = (Ok current, Denied sample_agent, agent_reads)
    ∧ set_agent_settings (PStr "noc") PNone None (Denied sample_agent)
      = (Ok (bool_decide
               (agent_writes (PStr "noc") PNone None current = [])),
         st', t).
Proof.
  refine (proj2 (set_agent_settings_refused (Denied sample_agent) (PStr "noc")
                   PNone None _ _) _).
  - reflexivity.
  - intros selection [=].
  - intros s. vm_compute. discriminate.
Defined.

(** ** The permission table *)

(** X9: the two lookups in the permission table undo each other: the name
    [get_community_names] finds for the integer [set_community_names]
    stores is the requested name, and a stored value that is given a
    non-empty name is the integer of that name. *)
Theorem permission_round_trip :
  (∀ permission vdata,
     permission_value permission = Some vdata →
     PStr (permission_of _PERMISSION_TYPES (PInt vdata)) = permission)
  ∧ (∀ stored_data,
       permission_of _PERMISSION_TYPES stored_data = ""
       ∨ ∃ vdata,
           stored_data = PInt vdata
           ∧ permission_value
               (PStr (permission_of _PERMISSION_TYPES stored_data))
             = Some vdata).
Proof.
  split; [apply permission_of_value|].
  intros stored_data.
  destruct (permission_of_cases stored_data) as [?|[vdata Hvdata]]; [by left|].
  right. exists vdata. split; [|done]. by apply permission_of_inv.
Qed.

(** ** Reading the community names *)

Lemma NoDup_gpo_communities items :
  NoDup (dict_keys (gpo_communities [] items)).
Proof.
  rewrite gpo_communities_entries.
  assert (NoDup (dict_keys ([] : pydict))) as Hnil by constructor.
  revert Hnil. generalize ([] : pydict).
  induction (entries items) as [|[k v] table IH]; intros d Hd; [done|].
  cbn [foldl]. by apply IH, NoDup_dict_keys_set.
Qed.

Lemma permission_of_name stored_data :
  permission_of _PERMISSION_TYPES stored_data = ""
  ∨ permission_of _PERMISSION_TYPES stored_data ∈ get_permission_types.
Proof.
  unfold _PERMISSION_TYPES at 1 2. cbn [permission_of].
  repeat (destruct (py_eq stored_data _);
          [right; unfold get_permission_types; cbn; set_solver|]).
  by left.
Qed.

(** [get_community_names] returns on every store, and leaves it alone. *)
Lemma get_community_names_runs `{ConfigStore St} (st : St) :
  ∃ names t, get_community_names st = (Ok names, st, t).
Proof.
  destruct (key_exists st _HKEY _COMMUNITIES_GPO_KEY) eqn:Hgpo.
  - destruct (decide (entries (listed (list_values st _HKEY
                                         _COMMUNITIES_GPO_KEY)) = [])).
    + eexists _, _. by apply get_community_names_empty_gpo.
    + eexists _, _. by apply get_community_names_gpo.
  - eexists _, _. by apply get_community_names_local.
Qed.

(** X10: whatever the store returns, [get_community_names] does not raise,
    leaves the store as it is and issues no write; the dictionary has no
    duplicate key, and its values are either all ["Managed by GPO"] or all
    permission names or empty strings. *)
Theorem get_community_names_total `{ConfigStore St} (st : St) :
  ∃ names t,
    get_community_names st = (Ok names, st, t)
    ∧ mutations t = []
    ∧ NoDup (dict_keys names)
    ∧ ((∀ community permission,
          dict_get names community = Some permission →
          permission = PStr "Managed by GPO")
       ∨ (∀ community permission,
            dict_get names community = Some permission →
            ∃ permission_name,
              permission = PStr permission_name
              ∧ (permission_name = ""
                 ∨ permission_name ∈ get_permission_types))).
Proof.
  assert (∀ items community permission,
            dict_get (local_communities [] items) community = Some permission →
            ∃ permission_name,
              permission = PStr permission_name
              ∧ (permission_name = ""
                 ∨ permission_name ∈ get_permission_types)) as Hlocal.
  { intros items community permission.
    rewrite dict_get_local_communities.
    destruct (stored _ _) as [stored_data|]; [|done]. intros [= <-].
    eexists. split; [done|]. apply permission_of_name. }
  destruct (key_exists st _HKEY _COMMUNITIES_GPO_KEY) eqn:Hgpo.
  - destruct (decide (entries (listed (list_values st _HKEY
                                         _COMMUNITIES_GPO_KEY)) = []))
      as [Hnone|Hsome].
    + eexists _, _. split_and!.
      * by apply get_community_names_empty_gpo.
      * done.
      * apply NoDup_local_communities.
      * right. apply Hlocal.
    + eexists _, _. split_and!.
      * by apply get_community_names_gpo.
      * done.
      * apply NoDup_gpo_communities.
      * left. intros community permission.
        rewrite dict_get_gpo_communities. case_decide; [|done].
        by intros [= <-].
  - eexists _, _. split_and!.
    + by apply get_community_names_local.
    + done.
    + apply NoDup_local_communities.
    + right. apply Hlocal.
Qed.

(** ** Verification of the community names *)

Lemma dict_eq_intro (a b : pydict) :
  NoDup (dict_keys a) → NoDup (dict_keys b) →
  (∀ k, dict_get a k = dict_get b k) → dict_eq a b = true.
Proof.
  intros Ha Hb Hsame. unfold dict_eq. apply andb_true_iff. split.
  - apply bool_decide_eq_true.
    assert (dict_keys a ≡ₚ dict_keys b) as Hperm.
    { apply NoDup_Permutation; [done..|]. intros k.
      by rewrite <-!dict_get_is_Some, Hsame. }
    apply Permutation_length in Hperm. unfold dict_keys in Hperm.
    by rewrite !length_fmap in Hperm.
  - apply forallb_forall. intros [k v] Hin%list_elem_of_In.
    apply bool_decide_eq_true. cbn. rewrite <-Hsame. by apply dict_get_elem.
Qed.

Lemma dict_eq_keys (a b : pydict) k :
  dict_eq a b = true → k ∈ dict_keys a → k ∈ dict_keys b.
Proof.
  intros [_ Hall]%andb_true_iff [v Hv]%dict_get_is_Some.
  rewrite forallb_forall in Hall.
  apply dict_get_Some_elem, list_elem_of_In, Hall, bool_decide_eq_true in Hv.
  apply dict_get_is_Some. eauto.
Qed.

Lemma failed_unrequested_inv (communities new_communities : pydict) :
  failed_unrequested communities new_communities = [] →
  ∀ k, k ∈ dict_keys new_communities → k ∈ dict_keys communities.
Proof.
  unfold failed_unrequested.
  assert (∀ ks (failed : pydict),
            foldl (λ failed new_vname,
                     if negb (dict_mem new_vname communities)
                     then dict_set failed new_vname PNone else failed)
              failed ks = [] →
            failed = [] ∧ ∀ k, k ∈ ks → k ∈ dict_keys communities) as Hfold.
  { induction ks as [|k0 ks IH]; intros failed; cbn [foldl].
    - intros ->. split; [done|]. by intros k ?%elem_of_nil.
    - intros [Hstep Hks]%IH.
      destruct (dict_mem k0 communities) eqn:Hmem; cbn [negb] in Hstep.
      + split; [done|]. intros k [->|Hk]%elem_of_cons; [|by apply Hks].
        by apply dict_mem_spec.
      + by apply dict_set_nil_inv in Hstep. }
  intros Hnil. by apply Hfold in Hnil as [_ ?].
Qed.

Lemma failed_requested_inv vnames (communities new_communities failed : pydict) :
  failed_requested vnames communities new_communities failed = Ok [] →
  failed = []
  ∧ ∀ k, k ∈ vnames →
      ∃ v, dict_get communities k = Some v
           ∧ dict_get new_communities k = Some v.
Proof.
  revert failed. induction vnames as [|k0 ks IH]; intros failed;
    cbn [failed_requested].
  - intros [= ->]. split; [done|]. by intros k ?%elem_of_nil.
  - unfold dict_item.
    destruct (dict_get communities k0) as [requested|] eqn:Hrequested;
      [|done].
    destruct (dict_get new_communities k0) as [stored_data|] eqn:Hstored;
      [|done].
    intros [Hstep Hks]%IH. unfold py_eq in Hstep.
    case_bool_decide as Hsame; cbn [negb] in Hstep.
    + subst. split; [done|].
      intros k [->|Hk]%elem_of_cons; [eauto|by apply Hks].
    + by apply dict_set_nil_inv in Hstep.
Qed.

Lemma failed_requested_present vnames (communities new_communities failed : pydict) :
  vnames ⊆ dict_keys communities → vnames ⊆ dict_keys new_communities →
  ∃ failed', failed_requested vnames communities new_communities failed
             = Ok failed'.
Proof.
  revert failed. induction vnames as [|k0 ks IH]; intros failed Hc Hn;
    cbn [failed_requested]; [eauto|].
  assert (k0 ∈ dict_keys communities) as [? Hrequested]%dict_get_is_Some
    by (apply Hc; left).
  assert (k0 ∈ dict_keys new_communities) as [? Hk0]%dict_get_is_Some
    by (apply Hn; left).
  unfold dict_item at 1 2. rewrite Hrequested, Hk0.
  apply IH; intros ??; [apply Hc|apply Hn]; by right.
Qed.

Lemma failed_requested_missing vnames (communities new_communities failed : pydict) :
  vnames ⊆ dict_keys communities →
  (∃ k, k ∈ vnames ∧ (k ∉ dict_keys new_communities)) →
  ∃ k, k ∈ vnames ∧ (k ∉ dict_keys new_communities)
       ∧ failed_requested vnames communities new_communities failed
         = Raise (KeyError k).
Proof.
  revert failed. induction vnames as [|k0 ks IH]; intros failed Hc Hmissing.
  { by destruct Hmissing as (? & ?%elem_of_nil & _). }
  cbn [failed_requested].
  assert (k0 ∈ dict_keys communities) as [requested Hrequested]%dict_get_is_Some
    by (apply Hc; left).
  unfold dict_item at 1 2. rewrite Hrequested.
  destruct (dict_get new_communities k0) as [stored_data|] eqn:Hk0.
  - destruct (IH (if negb (py_eq requested stored_data)
                  then dict_set failed k0 requested else failed))
      as (k & Hk & Hnot & ->).
    + intros ??. apply Hc. by right.
    + destruct Hmissing as (k & [->|Hk]%elem_of_cons & Hnot); [|eauto].
      exfalso. apply Hnot, dict_get_is_Some. eauto.
    + exists k. split_and!; [by right|done..].
  - exists k0. split_and!; [left| |done]. by apply dict_get_None.
Qed.

(** ** Repeating and refusing the reconciliation *)

Section repeating.
Context `{ConfigStore St}.
Implicit Types st : St.

(** The short way out of [set_community_names]. *)
Lemma set_community_names_equal st (communities : pydict) :
  key_exists st _HKEY _COMMUNITIES_GPO_KEY = false →
  dict_eq communities
    (local_communities [] (listed (list_values st _HKEY _COMMUNITIES_KEY)))
    = true →
  set_community_names communities st
    = (Ok true, st, KeyExists _HKEY _COMMUNITIES_GPO_KEY :: local_reads false).
Proof.
  intros Hgpo Heq. unfold set_community_names. step_call. rewrite Hgpo.
  step_with (get_community_names_local st Hgpo). by rewrite Heq.
Qed.

(** The long way: what is run once the request differs from the current
    table, up to the verification. *)
Lemma set_community_names_differ st (communities : pydict) :
  key_exists st _HKEY _COMMUNITIES_GPO_KEY = false →
  NoDup (dict_keys communities) →
  (∀ vname permission,
     dict_get communities vname = Some permission →
     is_Some (permission_value permission)) →
  let current :=
    local_communities [] (listed (list_values st _HKEY _COMMUNITIES_KEY)) in
  dict_eq communities current = false →
  ∃ values st' new_communities t,
    (∀ vname, dict_get values vname = requested_value communities vname)
    ∧ st' = replay (dict_keys values ≫= reconcile_new current values)
              (replay (dict_keys current ≫= reconcile_current values) st)
    ∧ (get_community_names st').1.1 = Ok new_communities
    ∧ set_community_names communities st
      = (match failed_requested (dict_keys communities) communities
                 new_communities
                 (failed_unrequested communities new_communities) with
         | Ok failed => Ok (bool_decide (failed = []))
         | Raise e => Raise e
         end, st', t).
Proof.
  intros Hgpo Hnodup Hvalid current Heq.
  destruct (normalize_valid (dict_keys communities) communities [])
    as (values & Hnormalize & Hvalues); [done..|].
  assert (∀ vname, dict_get values vname = requested_value communities vname)
    as Hrequested.
  { intros vname. rewrite Hvalues. case_decide as Hin; [done|].
    apply dict_get_None in Hin. unfold requested_value. by rewrite Hin. }
  set (st' := replay (dict_keys values ≫= reconcile_new current values)
                (replay (dict_keys current ≫= reconcile_current values) st)).
  destruct (get_community_names_runs st') as (new & tn & Hnew).
  exists values, st', new. eexists. split; [done|]. split; [done|].
  rewrite Hnew. split; [reflexivity|].
  unfold set_community_names. step_call. rewrite Hgpo.
  step_with (get_community_names_local st Hgpo). fold current. rewrite Heq.
  unfold bind at 1, lift at 1. rewrite Hnormalize. cbv beta iota zeta.
  cbn [fst snd].
  unfold bind at 1. rewrite reconcile_current_run; cycle 1.
  { intros k [v Hv]%dict_get_is_Some. revert Hv. subst current.
    rewrite dict_get_local_communities.
    destruct (stored _ _); [|done]. eauto. }
  { intros k v. rewrite Hrequested. unfold requested_value.
    destruct (dict_get communities k ≫= permission_value); [|done].
    intros [= <-]. eauto. }
  cbv beta iota zeta.
  unfold bind at 1. rewrite reconcile_new_run by done. cbv beta iota zeta.
  fold st'. step_with Hnew. unfold bind at 1, lift at 1.
  destruct (failed_requested _ _ _ _) as [failed|e]; cbv beta iota; [|done].
  destruct (decide (failed = [])) as [->|Hfailed].
  - rewrite bool_decide_eq_false_2 by naive_solver.
    by rewrite bool_decide_eq_true_2.
  - rewrite bool_decide_eq_true_2 by done.
    by rewrite bool_decide_eq_false_2.
Qed.
End repeating.

(** X11: [set_community_names] is idempotent on every store: after a call
    with valid permission names that returned [True], and as long as no
    Group Policy key has appeared, the same call returns [True] again after
    reads only, without a write or a delete. *)
Theorem set_community_names_idempotent `{ConfigStore St} (st st1 : St)
    (communities : pydict) (t1 : list event) :
  NoDup (dict_keys communities) →
  (∀ vname permission,
     dict_get communities vname = Some permission →
     is_Some (permission_value permission)) →
  set_community_names communities st = (Ok true, st1, t1) →
  key_exists st1 _HKEY _COMMUNITIES_GPO_KEY = false →
  set_community_names communities st1
    = (Ok true, st1, KeyExists _HKEY _COMMUNITIES_GPO_KEY :: local_reads false)
  ∧ mutations (KeyExists _HKEY _COMMUNITIES_GPO_KEY :: local_reads false) = [].
Proof.
  intros Hnodup Hvalid Hfirst Hgpo1. split; [|done].
  apply set_community_names_equal; [done|].
  destruct (key_exists st _HKEY _COMMUNITIES_GPO_KEY) eqn:Hgpo.
  { revert Hfirst. unfold set_community_names. step_call. by rewrite Hgpo. }
  destruct (dict_eq communities
              (local_communities []
                 (listed (list_values st _HKEY _COMMUNITIES_KEY)))) eqn:Heq.
  { rewrite set_community_names_equal in Hfirst by done.
    by injection Hfirst as <- _. }
  destruct (set_community_names_differ st communities Hgpo Hnodup Hvalid Heq)
    as (values & st' & new & t & _ & _ & Hnew & Hrun).
  rewrite Hrun in Hfirst.
  destruct (failed_requested _ _ _ _) as [failed|] eqn:Hfailed; [|done].
  injection Hfirst as Hnil%bool_decide_eq_true -> _. subst failed.
  apply failed_requested_inv in Hfailed as [Hunrequested Hrequested].
  pose proof (failed_unrequested_inv _ _ Hunrequested) as Hkeys.
  rewrite (get_community_names_local st1 Hgpo1) in Hnew.
  injection Hnew as <-.
  apply dict_eq_intro; [done|apply NoDup_local_communities|].
  intros k. destruct (decide (k ∈ dict_keys communities)) as [Hin|Hin].
  - destruct (Hrequested k Hin) as (v & -> & ->). done.
  - pose proof Hin as Hnone. apply dict_get_None in Hnone. rewrite Hnone.
    symmetry. apply dict_get_None. intros Hk. by apply Hin, Hkeys.
Qed.

Lemma set_community_names_idempotent_witness :
  let communities := [(PStr "a", PStr "Read Write"); (PStr "c", PStr "None")] in
  let first := set_community_names communities sample_communities in
  set_community_names communities first.1.2
    = (Ok true, first.1.2,
       KeyExists _HKEY _COMMUNITIES_GPO_KEY :: local_reads false)
  ∧ mutations (KeyExists _HKEY _COMMUNITIES_GPO_KEY :: local_reads false) = [].
Proof.
  intros communities first.
  apply (set_community_names_idempotent sample_communities first.1.2
           communities first.2).
  - cbn. repeat constructor; rewrite ?elem_of_cons, ?elem_of_nil; naive_solver.
  - intros vname permission. cbn [communities dict_get].
    repeat case_decide; try done; intros [= <-]; by eexists.
  - reflexivity.
  - reflexivity.
Defined.

Section refusing.
Context `{ConfigStore St}.
Implicit Types st : St.

Hypothesis set_refused : ∀ st hive key vname vdata vtype,
  list_values (set_value st hive key vname vdata vtype) _HKEY _COMMUNITIES_KEY
    = list_values st _HKEY _COMMUNITIES_KEY
  ∧ key_exists (set_value st hive key vname vdata vtype)
      _HKEY _COMMUNITIES_GPO_KEY
    = key_exists st _HKEY _COMMUNITIES_GPO_KEY.
Hypothesis delete_refused : ∀ st hive key vname,
  list_values (delete_value st hive key vname) _HKEY _COMMUNITIES_KEY
    = list_values st _HKEY _COMMUNITIES_KEY
  ∧ key_exists (delete_value st hive key vname) _HKEY _COMMUNITIES_GPO_KEY
    = key_exists st _HKEY _COMMUNITIES_GPO_KEY.

Lemma communities_after_refused_writes t st :
  list_values (replay t st) _HKEY _COMMUNITIES_KEY
    = list_values st _HKEY _COMMUNITIES_KEY
  ∧ key_exists (replay t st) _HKEY _COMMUNITIES_GPO_KEY
    = key_exists st _HKEY _COMMUNITIES_GPO_KEY.
Proof.
  unfold replay. revert st. induction t as [|e t IH]; intros st; [done|].
  cbn [foldl]. destruct (IH (match e with
                             | SetValue hive key vname vdata vtype =>
                                 set_value st hive key vname vdata vtype
                             | DeleteValue hive key vname =>
                                 delete_value st hive key vname
                             | _ => st
                             end)) as [-> ->].
  destruct e; first [apply set_refused|apply delete_refused|done].
Qed.

(** What [set_community_names] comes to when no write and no delete takes
    effect. *)
Lemma set_community_names_refused_run st (communities : pydict) :
  key_exists st _HKEY _COMMUNITIES_GPO_KEY = false →
  NoDup (dict_keys communities) →
  (∀ vname permission,
     dict_get communities vname = Some permission →
     is_Some (permission_value permission)) →
  let current :=
    local_communities [] (listed (list_values st _HKEY _COMMUNITIES_KEY)) in
  dict_eq communities current = false →
  ∃ st' t,
    set_community_names communities st
      = (match failed_requested (dict_keys communities) communities current
                 (failed_unrequested communities current) with
         | Ok failed => Ok (bool_decide (failed = []))
         | Raise e => Raise e
         end, st', t).
Proof.
  intros Hgpo Hnodup Hvalid current Heq.
  destruct (set_community_names_differ st communities Hgpo Hnodup Hvalid Heq)
    as (values & st' & new & t & _ & -> & Hnew & Hrun).
  exists (replay (dict_keys values ≫= reconcile_new current values)
            (replay (dict_keys current ≫= reconcile_current values) st)), t.
  rewrite Hrun. revert Hnew. rewrite get_community_names_local; cycle 1.
  { rewrite !(proj2 (communities_after_refused_writes _ _)). done. }
  rewrite !(proj1 (communities_after_refused_writes _ _)).
  cbn [fst]. by intros [= <-].
Qed.
End refusing.

(** X12: on a store where no write and no delete changes the community
    table, a call of [set_community_names] with valid permission names that
    differ from the current table does not return [True]: it returns [False]
    when every requested community is in the table already, and raises
    [KeyError] for a requested community that is not. *)
Theorem set_community_names_refused `{ConfigStore St} (st : St)
    (communities : pydict) :
  (∀ st0 hive key vname vdata vtype,
     list_values (set_value st0 hive key vname vdata vtype)
       _HKEY _COMMUNITIES_KEY
       = list_values st0 _HKEY _COMMUNITIES_KEY
     ∧ key_exists (set_value st0 hive key vname vdata vtype)
         _HKEY _COMMUNITIES_GPO_KEY
       = key_exists st0 _HKEY _COMMUNITIES_GPO_KEY) →
  (∀ st0 hive key vname,
     list_values (delete_value st0 hive key vname) _HKEY _COMMUNITIES_KEY
       = list_values st0 _HKEY _COMMUNITIES_KEY
     ∧ key_exists (delete_value st0 hive key vname)
         _HKEY _COMMUNITIES_GPO_KEY
       = key_exists st0 _HKEY _COMMUNITIES_GPO_KEY) →
  key_exists st _HKEY _COMMUNITIES_GPO_KEY = false →
  NoDup (dict_keys communities) →
  (∀ vname permission,
     dict_get communities vname = Some permission →
     is_Some (permission_value permission)) →
  let current :=
    local_communities [] (listed (list_values st _HKEY _COMMUNITIES_KEY)) in
  dict_eq communities current = false →
  ∃ st' t,
    ((∀ vname, vname ∈ dict_keys communities → vname ∈ dict_keys current) →
     set_community_names communities st = (Ok false, st', t))
    ∧ (∀ vname, vname ∈ dict_keys communities →
         vname ∉ dict_keys current →
         ∃ missing,
           missing ∈ dict_keys communities
           ∧ (missing ∉ dict_keys current)
           ∧ set_community_names communities st
             = (Raise (KeyError missing), st', t)).
Proof.
  intros Hset Hdelete Hgpo Hnodup Hvalid current Heq.
  destruct (set_community_names_refused_run Hset Hdelete st communities
              Hgpo Hnodup Hvalid Heq) as (st' & t & Hrun).
  exists st', t. fold current in Hrun. split.
  - intros Hpresent.
    destruct (failed_requested_present (dict_keys communities) communities
                current (failed_unrequested communities current))
      as [failed Hfailed]; [done..|].
    rewrite Hrun, Hfailed. do 2 f_equal. f_equal.
    apply bool_decide_eq_false. intros ->.
    apply failed_requested_inv in Hfailed as [Hunrequested Hrequested].
    pose proof (failed_unrequested_inv _ _ Hunrequested) as Hkeys.
    assert (dict_eq communities current = true) as Htrue; [|congruence].
    apply dict_eq_intro; [done|apply NoDup_local_communities|].
    intros k. destruct (decide (k ∈ dict_keys communities)) as [Hin|Hin].
    + by destruct (Hrequested k Hin) as (v & -> & ->).
    + pose proof Hin as Hnone. apply dict_get_None in Hnone. rewrite Hnone.
      symmetry. apply dict_get_None. intros Hk. by apply Hin, Hkeys.
  - intros vname Hin Hnot.
    destruct (failed_requested_missing (dict_keys communities) communities
                current (failed_unrequested communities current))
      as (missing & Hmissing & Habsent & Hfailed); [done|by eauto|].
    exists missing. by rewrite Hrun, Hfailed.
Qed.

Lemma set_community_names_refused_witness :
  let communities := [(PStr "a", PStr "Read Only"); (PStr "z", PStr "Notify")] in
  let st := Denied sample_communities in
  let current :=
    local_communities [] (listed (list_values st _HKEY _COMMUNITIES_KEY)) in
  ∃ st' t,
    ((∀ vname, vname ∈ dict_keys communities → vname ∈ dict_keys current) →
     set_community_names communities st = (Ok false, st', t))
    ∧ (∀ vname, vname ∈ dict_keys communities →
         vname ∉ dict_keys current →
         ∃ missing,
           missing ∈ dict_keys communities
           ∧ (missing ∉ dict_keys current)
           ∧ set_community_names communities st
             = (Raise (KeyError missing), st', t)).
Proof.
  intros communities st.
  apply (set_community_names_refused st communities).
  - done.
  - done.
  - reflexivity.
  - cbn. repeat constructor; rewrite ?elem_of_cons, ?elem_of_nil; naive_solver.
  - intros vname permission. cbn [communities dict_get].
    repeat case_decide; try done; intros [= <-]; by eexists.
  - vm_compute. reflexivity.
Defined.

(** ** Falsy permissions *)

Lemma dict_keys_falsy_as_none (communities : pydict) :
  dict_keys (falsy_as_none communities) = dict_keys communities.
Proof.
  unfold dict_keys, falsy_as_none.
  induction communities as [|[k v] communities IH]; cbn; [done|].
  by rewrite IH.
Qed.

Lemma dict_get_falsy_as_none (communities : pydict) k :
  dict_get (falsy_as_none communities) k
    = (λ permission, if py_truthy permission then permission else PStr "None")
        <$> dict_get communities k.
Proof.
  induction communities as [|[k' v] communities IH]; cbn; [done|].
  by case_decide.
Qed.

Lemma falsy_as_none_set (communities : pydict) k permission :
  dict_get communities k = Some permission →
  py_truthy permission = false →
  falsy_as_none (dict_set communities k (PStr "None"))
    = falsy_as_none communities.
Proof.
  induction communities as [|[k' v] communities IH]; cbn; [done|].
  case_decide as Hk.
  - intros [= ->] Hfalsy. subst k'. cbn. by rewrite Hfalsy.
  - intros Hget Hfalsy. cbn. f_equal. by apply IH.
Qed.

Lemma falsy_as_none_truthy (communities : pydict) :
  (∀ k permission, (k, permission) ∈ communities →
                   py_truthy permission = true) →
  falsy_as_none communities = communities.
Proof.
  induction communities as [|[k v] communities IH]; intros Htruthy; cbn;
    [done|].
  rewrite (Htruthy k v) by left. f_equal. apply IH.
  intros k' v' Hin. apply (Htruthy k'). by right.
Qed.

Lemma normalize_cons_truthy k ks (communities values : pydict) permission :
  dict_get communities k = Some permission →
  py_truthy permission = true →
  normalize (k :: ks) communities values
    = match permission_value permission with
      | None =>
          Raise (SaltInvocationError (invalid_permission_message permission))
      | Some vdata => normalize ks communities (dict_set values k (PInt vdata))
      end.
Proof.
  intros Hget Htruthy. cbn [normalize]. unfold dict_item.
  rewrite Hget, Htruthy. cbn [negb]. by rewrite Hget.
Qed.

Lemma normalize_cons_falsy k ks (communities values : pydict) permission :
  dict_get communities k = Some permission →
  py_truthy permission = false →
  normalize (k :: ks) communities values
    = normalize ks (dict_set communities k (PStr "None"))
        (dict_set values k (PInt 1)).
Proof.
  intros Hget Hfalsy. cbn [normalize]. unfold dict_item.
  rewrite Hget, Hfalsy. cbn [negb]. rewrite dict_get_set, decide_True by done.
  done.
Qed.

(** The validation loop on a request and on the request with its falsy
    permissions replaced beforehand. *)
Lemma normalize_falsy ks (communities values : pydict) :
  ks ⊆ dict_keys communities →
  match normalize ks communities values with
  | Ok (communities', values') =>
      normalize ks (falsy_as_none communities) values
        = Ok (falsy_as_none communities, values')
      ∧ falsy_as_none communities' = falsy_as_none communities
      ∧ (∀ k, k ∈ ks →
           ∃ permission, dict_get communities' k = Some permission
                         ∧ py_truthy permission = true)
      ∧ (∀ k permission,
           dict_get communities k = Some permission →
           py_truthy permission = true →
           dict_get communities' k = Some permission)
  | Raise e => normalize ks (falsy_as_none communities) values = Raise e
  end.
Proof.
  revert communities values.
  induction ks as [|k0 ks IH]; intros communities values Hkeys.
  { cbn [normalize]. split_and!; try done. by intros k ?%elem_of_nil. }
  assert (k0 ∈ dict_keys communities) as [permission Hget]%dict_get_is_Some
    by (apply Hkeys; left).
  assert (ks ⊆ dict_keys communities) as Hks
    by (intros k Hk; apply Hkeys; by right).
  destruct (py_truthy permission) eqn:Htruthy.
  - rewrite (normalize_cons_truthy _ _ _ _ _ Hget Htruthy).
    rewrite (normalize_cons_truthy k0 ks (falsy_as_none communities) values
               permission); [|by rewrite dict_get_falsy_as_none, Hget; cbn;
                                 rewrite Htruthy|done].
    destruct (permission_value permission) as [vdata|]; [|done].
    specialize (IH communities (dict_set values k0 (PInt vdata)) Hks).
    destruct (normalize ks communities _) as [[communities' values']|e];
      [|done].
    destruct IH as (Hrun & Hsame & Hdone & Hkept).
    split_and!; [done..| |done].
    intros k [->|Hk]%elem_of_cons; [|by apply Hdone].
    exists permission. split; [by apply Hkept|done].
  - rewrite (normalize_cons_falsy _ _ _ _ _ Hget Htruthy).
    rewrite (normalize_cons_truthy k0 ks (falsy_as_none communities) values
               (PStr "None")); [|by rewrite dict_get_falsy_as_none, Hget; cbn;
                                    rewrite Htruthy|done].
    replace (permission_value (PStr "None")) with (Some 1) by reflexivity.
    specialize (IH (dict_set communities k0 (PStr "None"))
                  (dict_set values k0 (PInt 1))).
    rewrite (falsy_as_none_set _ _ _ Hget Htruthy) in IH.
    destruct (normalize ks (dict_set communities k0 (PStr "None")) _)
      as [[communities' values']|e].
    + destruct IH as (Hrun & Hsame & Hdone & Hkept).
      { intros k Hk. apply elem_of_dict_keys_set. right. by apply Hks. }
      split_and!; [done..| |].
      * intros k [->|Hk]%elem_of_cons; [|by apply Hdone].
        exists (PStr "None"). split; [|done]. apply Hkept; [|done].
        by rewrite dict_get_set, decide_True.
      * intros k permission' Hget' Htruthy'. apply Hkept; [|done].
        rewrite dict_get_set, decide_False; [done|].
        intros <-. congruence.
    + apply IH. intros k Hk. apply elem_of_dict_keys_set. right.
      by apply Hks.
Qed.

Section falsy.
Context `{ConfigStore St}.

Lemma bind_ext_run {A B} (m : prog St A) (k k' : A → prog St B) (st : St) :
  (∀ a st1 t1, m st = (Ok a, st1, t1) → k a st1 = k' a st1) →
  bind m k st = bind m k' st.
Proof.
  intros Hsame. unfold bind. destruct (m st) as [[[a|e] st1] t1]; [|done].
  by rewrite (Hsame a st1 t1).
Qed.

Lemma bind_lift {A B} (r : result A) (k : A → prog St B) (st : St) :
  bind (lift r) k st
    = match r with Ok a => k a st | Raise e => (Raise e, st, []) end.
Proof.
  unfold bind, lift. destruct r as [a|e]; [|done].
  by destruct (k a st) as [[??]?].
Qed.
End falsy.

(** X13: [set_community_names] treats a falsy permission (an empty string,
    [None], zero) as ["None"]: whenever neither the request nor the request
    with its falsy permissions replaced by ["None"] equals the current
    table, both calls have the same result, whether a value or an
    exception, leave the same store and make the same calls. *)
Theorem set_community_names_falsy `{ConfigStore St} (st : St)
    (communities current : pydict) :
  NoDup (dict_keys communities) →
  (get_community_names st).1.1 = Ok current →
  dict_eq communities current = false →
  dict_eq (falsy_as_none communities) current = false →
  set_community_names communities st
    = set_community_names (falsy_as_none communities) st.
Proof.
  intros Hnodup Hcurrent Hne Hne'.
  destruct (get_community_names_runs st) as (names & t & Hrun).
  rewrite Hrun in Hcurrent. injection Hcurrent as ->.
  unfold set_community_names. apply bind_ext_run.
  intros gpo st1 t1 [= <- <- _]. destruct (key_exists _ _ _); [done|].
  apply bind_ext_run. intros names st2 t2. rewrite Hrun. intros [= <- <- _].
  rewrite Hne, Hne', !bind_lift, dict_keys_falsy_as_none.
  pose proof (normalize_falsy (dict_keys communities) communities []) as Hnorm.
  destruct (normalize (dict_keys communities) communities [])
    as [[communities' values]|e]; [|by rewrite Hnorm].
  destruct Hnorm as (-> & Hsame & Hdone & _); [done|].
  rewrite <-Hsame, falsy_as_none_truthy; [done|].
  intros k permission Hin.
  assert (NoDup (dict_keys communities')) as Hnodup'.
  { by rewrite <-dict_keys_falsy_as_none, Hsame, dict_keys_falsy_as_none. }
  destruct (Hdone k) as (permission' & Hget & Htruthy).
  { rewrite <-dict_keys_falsy_as_none, <-Hsame, dict_keys_falsy_as_none.
    apply dict_get_is_Some. exists permission. by apply dict_get_elem. }
  apply (dict_get_elem _ _ _ Hnodup') in Hin. congruence.
Qed.

Lemma set_community_names_falsy_witness :
  let communities := [(PStr "a", PStr ""); (PStr "c", PNone)] in
  set_community_names communities sample_communities
    = set_community_names (falsy_as_none communities) sample_communities.
Proof.
  intros communities.
  apply (set_community_names_falsy sample_communities communities
           [(PStr "a", PStr "Read Only"); (PStr "b", PStr "Notify")]).
  - cbn. repeat constructor; rewrite ?elem_of_cons, ?elem_of_nil; naive_solver.
  - vm_compute. reflexivity.
  - vm_compute. reflexivity.
  - vm_compute. reflexivity.
Defined.

(** ** Loading the module *)

(** X14: [__virtual__] never raises and never changes the store; it yields
    the virtual name exactly on a Windows host whose registry has the SNMP
    parameters key, and a refusal with a reason otherwise; off Windows the
    registry is not consulted at all, on Windows the only call is the
    existence check of that key. *)
Theorem virtual_spec `{ConfigStore St} (is_windows : bool) (st : St) :
  ∃ outcome t,
    __virtual__ is_windows st = (Ok outcome, st, t)
    ∧ t = (if is_windows then [KeyExists _HKEY _SNMP_KEY] else [])
    ∧ (outcome = Loaded "win_snmp"
       ↔ is_windows = true ∧ key_exists st _HKEY _SNMP_KEY = true)
    ∧ (∀ name, outcome = Loaded name → name = "win_snmp")
    ∧ (∀ reason, outcome = NotLoaded reason →
         reason = if is_windows then "Module win_snmp: SNMP not installed"
                  else "Module win_snmp: Requires Windows").
Proof.
  unfold __virtual__. destruct is_windows; cbn [negb].
  - step_call. destruct (key_exists st _HKEY _SNMP_KEY); cbn [negb].
    + eexists _, _. split; [reflexivity|]. split; [done|].
      split_and!; [done|by intros ? [= <-]|done].
    + eexists _, _. split; [reflexivity|]. split; [done|].
      split_and!; [by split; [|intros [_ ?]]|done|by intros ? [= <-]].
  - eexists _, _. split; [reflexivity|]. split; [done|].
    split_and!; [by split; [|intros [? _]]|done|by intros ? [= <-]].
Qed.
